(** * keystoneclient: plugin lookup, the command-line shell, and the
      token life cycle

    A shallow embedding of [keystoneclient/auth/base.py] and
    [keystoneclient/shell.py], with the collaborators those files call
    (stevedore's driver manager, the client classes, the sub-command
    callbacks) taken as parameters or as small documented models. *)

From Stdlib Require Import Ascii String.
From stdpp Require Import base numbers option list strings gmap.

Open Scope string_scope.
Open Scope list_scope.
Open Scope nat_scope.

(** ** Python values shared by every module *)

(** Truth value of a [str]: only the empty string is falsy. *)
Definition truthy (s : string) : bool :=
  match s with
  | EmptyString => false
  | String _ _ => true
  end.

(** Truth value of a value that is [None] or a [str]. *)
Definition truthy_opt (v : option string) : bool :=
  match v with
  | None => false
  | Some s => truthy s
  end.

(** [s.startswith(p)]. *)
Fixpoint startswith (p s : string) : bool :=
  match p, s with
  | EmptyString, _ => true
  | String a p', String b s' => Ascii.eqb a b && startswith p' s'
  | String _ _, EmptyString => false
  end.

(** [needle in s] for two strings. *)
Fixpoint contains (needle s : string) : bool :=
  startswith needle s ||
  match s with
  | EmptyString => false
  | String _ s' => contains needle s'
  end.

Definition LF : Ascii.ascii := Ascii.ascii_of_nat 10.

(** A message is a single line when it holds no line feed. *)
Fixpoint single_line (s : string) : bool :=
  match s with
  | EmptyString => true
  | String c s' => negb (Ascii.eqb c LF) && single_line s'
  end.

(** ** Exceptions

    The exception classes the two files name.  [RuntimeError] and
    [SystemExit] are builtins; the others live in
    [keystoneclient.exceptions].  [Other] stands for any further
    subclass of [Exception], which no handler of the sources singles
    out. *)
Module Exceptions.

Inductive kind : Type :=
| RuntimeError
| SystemExit
| NoMatchingPlugin
| CommandError
| Unauthorized
| AuthorizationFailure
| Other (cls : string).

#[global] Instance kind_eq_dec : EqDecision kind.
Proof. solve_decision. Defined.

(** An exception instance: its class and [str(e)]. *)
Record exn : Type := Exn { exn_kind : kind; exn_message : string }.

#[global] Instance exn_eq_dec : EqDecision exn.
Proof. solve_decision. Defined.

(** [except K:] catches the instances of [K]. *)
Definition isinstance (e : exn) (k : kind) : bool :=
  bool_decide (exn_kind e = k).

(** [except Exception:] catches everything but [SystemExit], which
    derives from [BaseException] only. *)
Definition is_Exception (e : exn) : bool :=
  negb (isinstance e SystemExit).

(** What a call does: it returns a value or raises. *)
Inductive outcome (A : Type) : Type :=
| Return (a : A)
| Raise (e : exn).
#[global] Arguments Return {A} a.
#[global] Arguments Raise {A} e.

End Exceptions.
Import Exceptions.

(** ** keystoneclient/auth/base.py *)
Module Base.

Definition PLUGIN_NAMESPACE : string := "keystoneclient.auth.plugin".

Section Plugins.
(** The plugin classes an installation provides. *)
Context {PluginClass : Type}.

(** What [stevedore.DriverManager(...)] hands back: [mgr.driver]. *)
Record Manager : Type := { driver : PluginClass }.

(** [get_plugin_class], over whatever the driver manager's constructor
    does for a namespace, a name and [invoke_on_load]. *)
Definition get_plugin_class_with
    (DriverManager : string → string → bool → outcome Manager)
    (name : string) : outcome PluginClass :=
  match DriverManager PLUGIN_NAMESPACE name false with
  | Raise e =>
      if isinstance e RuntimeError then
        let msg := "The plugin " +:+ name +:+ " could not be found" in
        Raise (Exn NoMatchingPlugin msg)
      else Raise e
  | Return mgr => Return (driver mgr)
  end.

(** The registry stevedore reads: the entry points of the installation,
    a plugin class per (namespace, name).  With [invoke_on_load=False]
    the driver is the class itself; stevedore raises [RuntimeError]
    when the namespace has no driver of that name. *)
Definition DriverManager (entry_points : gmap (string * string) PluginClass)
    (namespace name : string) (invoke_on_load : bool) : outcome Manager :=
  match entry_points !! (namespace, name) with
  | Some cls => Return {| driver := cls |}
  | None =>
      Raise (Exn RuntimeError
               ("No '" +:+ namespace +:+ "' driver found, looking for '"
                  +:+ name +:+ "'"))
  end.

Definition get_plugin_class (entry_points : gmap (string * string) PluginClass)
    (name : string) : outcome PluginClass :=
  get_plugin_class_with (DriverManager entry_points) name.

End Plugins.

(** *** BaseAuthPlugin

    The methods [BaseAuthPlugin] gives a body, over the plugin's own
    state [P].  A plugin inherits them unless it overrides them;
    [get_token] is abstract. *)
Section BaseAuthPlugin.
Context {P Session Param : Type}.

(** [get_endpoint]: the body is a docstring, so the call returns
    [None] and leaves the plugin as it was. *)
Definition BaseAuthPlugin_get_endpoint (self : P) (session : Session)
    (kwargs : gmap string string) : option string * P :=
  (None, self).

(** [invalidate]: [return False]. *)
Definition BaseAuthPlugin_invalidate (self : P) : bool * P :=
  (false, self).

(** [get_options]: [return []]. *)
Definition BaseAuthPlugin_get_options : list Param := [].

(** [load_from_options]: the class called on the keyword arguments. *)
Definition BaseAuthPlugin_load_from_options
    (cls : gmap string string → outcome P)
    (kwargs : gmap string string) : outcome P :=
  cls kwargs.

End BaseAuthPlugin.

(** The instance methods of the interface, as the session uses them:
    a plugin acts on a world [W] that holds its own state and whatever
    it reaches through the session it is handed.  [get_token] returns
    a token, [None], or raises. *)
Class AuthPlugin (W : Type) : Type := {
  get_token : W → outcome (option string) * W;
  invalidate : W → bool * W
}.

End Base.

(** ** keystoneclient/shell.py *)
Module Shell.

(** [env]: the first of the variables [vars] that [os.environ] holds
    with a truthy value, else the keyword argument [default], else the
    empty string. *)
Fixpoint env (environ : gmap string string) (vars : list string)
    (kwargs : gmap string string) : string :=
  match vars with
  | [] => default "" (kwargs !! "default")
  | v :: vars' =>
      match environ !! v with
      | Some value =>
          if truthy value then value else env environ vars' kwargs
      | None => env environ vars' kwargs
      end
  end.

(** A sub-command callback found in an actions module: the name of the
    [do_] function and the flag that the decorator for commands that
    need no authentication leaves on it. *)
Record Action : Type := { attr : string; unauthenticated : bool }.

(** [args.func]: the shell's own bound [do_help], or a function of an
    actions module. *)
Inductive Callback : Type :=
| do_help_method
| action (a : Action).

#[global] Instance Action_eq_dec : EqDecision Action.
Proof. solve_decision. Defined.

#[global] Instance Callback_eq_dec : EqDecision Callback.
Proof. solve_decision. Defined.

(** Modelled from the spec: [utils.isunauthenticated], of
    [keystoneclient/utils.py], reads the capability flag on the
    callback; a callback that was never marked counts as requiring
    authentication, and [do_help] carries no mark. *)
Definition isunauthenticated (f : Callback) : bool :=
  match f with
  | do_help_method => false
  | action a => unauthenticated a
  end.

(** What argparse hands back: the global options of [get_base_parser]
    by their [dest], the callback that [set_defaults(func=...)] left,
    and the positional [command] of the help sub-command (absent from
    every other parse). *)
Record Namespace : Type := {
  help : bool;
  debug : bool;
  username : string;
  password : string;
  tenant_name : string;
  os_tenant_id : string;
  auth_url : string;
  region_name : string;
  identity_api_version : string;
  token : string;
  endpoint : string;
  func : Callback;
  command : option string
}.

(** The defaults [get_base_parser] declares, read from the environment
    when the parser is built. *)
Definition get_base_parser_defaults (environ : gmap string string)
    (f : Callback) : Namespace :=
  {| help := false;
     debug := false;
     username := env environ ["OS_USERNAME"] ∅;
     password := env environ ["OS_PASSWORD"] ∅;
     tenant_name := env environ ["OS_TENANT_NAME"] ∅;
     os_tenant_id := env environ ["OS_TENANT_ID"] ∅;
     auth_url := env environ ["OS_AUTH_URL"] ∅;
     region_name := env environ ["OS_REGION_NAME"] ∅;
     identity_api_version :=
       env environ ["OS_IDENTITY_API_VERSION"; "KEYSTONE_VERSION"] ∅;
     token := env environ ["SERVICE_TOKEN"] ∅;
     endpoint := env environ ["SERVICE_ENDPOINT"] ∅;
     func := f;
     command := None |}.

(** Keyword arguments of a client constructor: each is [None] or a
    [str]. *)
Definition Kwargs : Type := gmap string (option string).

(** What the shell does that the outside can see, in order. *)
Inductive event : Type :=
| NewGenericClient (kwargs : Kwargs)
| NewClient (version : string) (kwargs : Kwargs)
| Called (f : Callback)
| PrintHelp (subcommand : option string)
| PrintErr (line : string).

(** [attr[3:]]. *)
Fixpoint string_drop (n : nat) (s : string) : string :=
  match n, s with
  | O, _ => s
  | S n', String _ s' => string_drop n' s'
  | S _, EmptyString => EmptyString
  end.

(** [s.replace(a, b)] for one-character [a] and [b]. *)
Fixpoint replace_char (a b : Ascii.ascii) (s : string) : string :=
  match s with
  | EmptyString => EmptyString
  | String c s' =>
      String (if Ascii.eqb c a then b else c) (replace_char a b s')
  end.

(** [_find_actions]: the commands registered for the [do_] attributes
    of an actions module, added to [self.subcommands]. *)
Definition _find_actions (subcommands : gset string) (attrs : list string)
    : gset string :=
  foldl
    (λ acc a, {[ replace_char "_"%char "-"%char (string_drop 3 a) ]} ∪ acc)
    subcommands
    (filter (λ a, startswith "do_" a = true) attrs).



Section Shell.
(** The client objects, and the collaborators of the shell: the two
    argparse parsers, the client classes of [shell_generic] and
    [shell_v2_0], the attribute names of the three places
    [_find_actions] scans, and what each callback does when called. *)
Context {Client : Type}.
Variable parse_known_args : list string → Namespace.
Variable parse_args : string → list string → outcome Namespace.
Variable generic_CLIENT_CLASS : Kwargs → outcome Client.
Variable v2_0_CLIENT_CLASS : Kwargs → outcome Client.
Variable dir_shell_v2_0 dir_shell_generic dir_self : list string.
Variable run : Action → Client → Namespace → outcome unit.

(** [httplib2.debuglevel], the attributes of the shell object, and the
    events so far. *)
Record State : Type := {
  debuglevel : Z;
  cs : option Client;
  subcommands : gset string;
  log : list event
}.

Definition set_debuglevel (n : Z) (st : State) : State :=
  {| debuglevel := n; cs := cs st; subcommands := subcommands st;
     log := log st |}.

Definition set_cs (c : Client) (st : State) : State :=
  {| debuglevel := debuglevel st; cs := Some c;
     subcommands := subcommands st; log := log st |}.

Definition set_subcommands (s : gset string) (st : State) : State :=
  {| debuglevel := debuglevel st; cs := cs st; subcommands := s;
     log := log st |}.

Definition emit (ev : event) (st : State) : State :=
  {| debuglevel := debuglevel st; cs := cs st;
     subcommands := subcommands st; log := log st ++ [ev] |}.

(** Statements of a method: they read and change the state, and
    return or raise. *)
Definition M (A : Type) : Type := State → outcome A * State.

Definition ret {A} (a : A) : M A := λ st, (Return a, st).

Definition raise {A} (e : exn) : M A := λ st, (Raise e, st).

Definition bind {A B} (m : M A) (k : A → M B) : M B :=
  λ st,
    match m st with
    | (Return a, st') => k a st'
    | (Raise e, st') => (Raise e, st')
    end.

Definition lift {A} (r : outcome A) : M A := λ st, (r, st).

Definition modify (f : State → State) : M unit := λ st, (Return (), f st).

Definition get : M State := λ st, (Return st, st).

(** [try: m  except K: h] for each pair [(K, h)] of [handlers], in
    order. *)
Definition try_except {A} (m : M A) (handlers : list (kind * M A)) : M A :=
  λ st,
    match m st with
    | (Return a, st') => (Return a, st')
    | (Raise e, st') =>
        match list_find (λ h, isinstance e h.1 = true) handlers with
        | Some (_, (_, h)) => h st'
        | None => (Raise e, st')
        end
    end.

#[local] Instance M_ret : MRet M := @ret.

#[local] Instance M_bind : MBind M := λ A B k m, bind m k.

(** [get_subcommand_parser]: the part the shell keeps, which is the
    set of commands in [self.subcommands].  Every version resolves to
    the actions of [shell_v2_0]. *)
Definition OpenStackIdentityShell_get_subcommand_parser (version : string)
    : M unit :=
  modify (set_subcommands ∅) ;;
  let actions_module :=
    match ({[ "2.0" := dir_shell_v2_0 ]} : gmap string (list string)) !! version with
    | Some m => m
    | None => dir_shell_v2_0
    end in
  modify (λ st, set_subcommands (_find_actions (subcommands st) actions_module) st) ;;
  modify (λ st, set_subcommands (_find_actions (subcommands st) dir_shell_generic) st) ;;
  modify (λ st, set_subcommands (_find_actions (subcommands st) dir_self) st).

(** [get_api_class]: the client class of [shell_v2_0] for every
    version. *)
Definition OpenStackIdentityShell_get_api_class (version : string)
    : Kwargs → outcome Client :=
  match ({[ "2.0" := v2_0_CLIENT_CLASS ]} : gmap string (Kwargs → outcome Client)) !! version with
  | Some c => c
  | None => v2_0_CLIENT_CLASS
  end.

(** [do_help]. *)
Definition OpenStackIdentityShell_do_help (args : Namespace) : M unit :=
  match command args with
  | Some cmd =>
      if truthy cmd then
        st ← get;
        if bool_decide (cmd ∈ subcommands st) then
          modify (emit (PrintHelp (Some cmd)))
        else
          raise (Exn CommandError ("'" +:+ cmd +:+ "' is not a valid subcommand"))
      else modify (emit (PrintHelp None))
  | None => modify (emit (PrintHelp None))
  end.

(** [args.func(self.cs, args)]: the call is logged, then does what the
    callback does.  The two short-circuits of [main] deal with
    [do_help] before this point: the bound method takes one argument,
    so called with two it would raise [TypeError]; and reading
    [self.cs] before it is assigned would raise [AttributeError]. *)
Definition call_func (args : Namespace) : M unit :=
  st ← get;
  match cs st with
  | None => raise (Exn (Other "AttributeError") "cs")
  | Some c =>
      modify (emit (Called (func args))) ;;
      match func args with
      | action a => lift (run a c args)
      | do_help_method => raise (Exn (Other "TypeError") "do_help")
      end
  end.

(** Lines 181 to 193 of [main]: the credentials a command needs,
    unless it is marked as needing none, or a token and an endpoint
    are both given. *)
Definition check_credentials (args : Namespace) : M unit :=
  if negb (isunauthenticated (func args)) then
    if negb (truthy (token args) && truthy (endpoint args)) then
      (if negb (truthy (username args)) then
         raise (Exn CommandError
           "You must provide a username via either --username or env[OS_USERNAME]")
       else mret ()) ;;
      (if negb (truthy (password args)) then
         raise (Exn CommandError
           "You must provide a password via either --password or env[OS_PASSWORD]")
       else mret ()) ;;
      (if negb (truthy (auth_url args)) then
         raise (Exn CommandError
           "You must provide an auth url via either --auth_url or via env[OS_AUTH_URL]")
       else mret ())
    else mret ()
  else mret ().

(** Lines 195 to 212 of [main]: [self.cs] becomes the generic client
    on the auth url, or the client of the API version on the global
    options, with the token and the endpoint only when both are
    given. *)
Definition make_client (options args : Namespace) : M unit :=
  if isunauthenticated (func args) then
    let kwargs : Kwargs := {[ "endpoint" := Some (auth_url args) ]} in
    modify (emit (NewGenericClient kwargs)) ;;
    c ← lift (generic_CLIENT_CLASS kwargs);
    modify (set_cs c)
  else
    let '(token, endpoint) :=
      if truthy (token args) && truthy (endpoint args)
      then (Some (token args), Some (endpoint args))
      else (None, None) in
    let api_version := identity_api_version options in
    let kwargs : Kwargs :=
      list_to_map
        [("username", Some (username args));
         ("tenant_name", Some (tenant_name args));
         ("tenant_id", Some (os_tenant_id args));
         ("token", token);
         ("endpoint", endpoint);
         ("password", Some (password args));
         ("auth_url", Some (auth_url args));
         ("region_name", Some (region_name args))] in
    modify (emit (NewClient api_version kwargs)) ;;
    c ← lift (OpenStackIdentityShell_get_api_class api_version kwargs);
    modify (set_cs c).

(** Lines 214 to 219 of [main]: the callback runs, and the two
    authentication errors become command errors. *)
Definition dispatch (args : Namespace) : M unit :=
  try_except (call_func args)
    [(Unauthorized,
      raise (Exn CommandError "Invalid OpenStack Identity credentials."));
     (AuthorizationFailure,
      raise (Exn CommandError "Unable to authorize user"))].

(** [OpenStackIdentityShell.main].  It returns [0] after printing help
    and [None] after running a command. *)
Definition OpenStackIdentityShell_main (argv : list string) : M (option Z) :=
  let options := parse_known_args argv in
  let api_version := identity_api_version options in
  OpenStackIdentityShell_get_subcommand_parser api_version ;;
  if help options then
    OpenStackIdentityShell_do_help options ;;
    mret (Some 0%Z)
  else
    args ← lift (parse_args api_version argv);
    (if debug args then modify (set_debuglevel 1) else mret ()) ;;
    if bool_decide (func args = do_help_method) then
      OpenStackIdentityShell_do_help args ;;
      mret (Some 0%Z)
    else
      check_credentials args ;;
      make_client options args ;;
      dispatch args ;;
      mret None.

(** How the process ends: it runs off the end of [main], it exits
    through [sys.exit], or an exception leaves [main] and the
    interpreter dumps the stack. *)
Inductive termination : Type :=
| Finished
| Exited (status : Z)
| Uncaught (e : exn).

(** A new [OpenStackIdentityShell()] in a process whose
    [httplib2.debuglevel] is [d]. *)
Definition fresh (d : Z) : State :=
  {| debuglevel := d; cs := None; subcommands := ∅; log := [] |}.

(** The module's [main], on [sys.argv[1:]]. *)
Definition main (argv : list string) (d : Z) : termination * State :=
  match OpenStackIdentityShell_main argv (fresh d) with
  | (Return _, st) => (Finished, st)
  | (Raise e, st) =>
      if is_Exception e then
        if bool_decide (debuglevel st = 1%Z) then (Uncaught e, st)
        else (Exited 1, emit (PrintErr (exn_message e)) st)
      else (Uncaught e, st)
  end.

End Shell.

End Shell.

(** ** The authentication reference and its serialized form *)
Module Access.

#[local] Set Warnings "-register-all".

(** Structured data as the serialized form carries it. *)
Inductive json : Type :=
| JNull
| JBool (b : bool)
| JString (s : string)
| JArray (items : list json)
| JObject (fields : list (string * json)).

(** Modelled from the spec: the AuthReference of section 3 (the class
    behind [cl.auth_ref] is not among the sources).  It holds the raw
    response payload, the token value, the optional expiration, the
    scoping flag, the optional management endpoint and the nullable
    identity: user name, tenant name, tenant id. *)
Record AuthReference : Type := {
  raw : json;
  token : string;
  expires : option string;
  scoped : bool;
  management_url : option string;
  username : option string;
  tenant_name : option string;
  tenant_id : option string
}.

(** The value under a field name, the first if the name is repeated. *)
Fixpoint field (name : string) (fields : list (string * json)) : option json :=
  match fields with
  | [] => None
  | (k, v) :: rest => if String.eqb k name then Some v else field name rest
  end.

(** A named field for a value that is present, nothing for one that is
    absent. *)
Definition present (name : string) (v : option string) : list (string * json) :=
  match v with
  | Some s => [(name, JString s)]
  | None => []
  end.

(** Modelled from the spec: serialization to a self-describing record
    with named fields (section 6); the test of the sources does it
    with [json.dumps(cl.auth_ref)]. *)
Definition serialize (r : AuthReference) : json :=
  JObject
    ([("raw", raw r); ("token", JString (token r))]
       ++ present "expires" (expires r)
       ++ [("scoped", JBool (scoped r))]
       ++ present "management_url" (management_url r)
       ++ present "username" (username r)
       ++ present "tenant_name" (tenant_name r)
       ++ present "tenant_id" (tenant_id r)).

Definition as_string (j : json) : option string :=
  match j with
  | JString s => Some s
  | _ => None
  end.

Definition as_bool (j : json) : option bool :=
  match j with
  | JBool b => Some b
  | _ => None
  end.

(** An optional string field: absent or null reads as [None]; any
    other value that is not a string makes the blob ill-formed. *)
Definition optional (name : string) (fields : list (string * json))
    : option (option string) :=
  match field name fields with
  | None => Some None
  | Some JNull => Some None
  | Some (JString s) => Some (Some s)
  | Some _ => None
  end.

(** Modelled from the spec: reconstruction from the serialized record
    alone, with no plugin at hand; [None] for a blob that is not such
    a record. *)
Definition deserialize (j : json) : option AuthReference :=
  match j with
  | JObject fields =>
      r ← field "raw" fields;
      t ← field "token" fields ≫= as_string;
      e ← optional "expires" fields;
      s ← field "scoped" fields ≫= as_bool;
      m ← optional "management_url" fields;
      u ← optional "username" fields;
      tn ← optional "tenant_name" fields;
      ti ← optional "tenant_id" fields;
      Some {| raw := r; token := t; expires := e; scoped := s;
              management_url := m; username := u; tenant_name := tn;
              tenant_id := ti |}
  | _ => None
  end.

End Access.

(** ** The client of the tests *)
Module Client.

(** Modelled from the spec: the keyword arguments the tests give
    [client.Client]. *)
Record Options : Type := {
  opt_username : option string;
  opt_password : option string;
  opt_auth_url : option string;
  opt_auth_ref : option Access.json
}.

(** Modelled from the spec: what the tests read off a client. *)
Record Client : Type := {
  username : option string;
  password : option string;
  auth_url : option string;
  management_url : option string;
  auth_ref : option Access.AuthReference
}.

(** Modelled from the spec: the constructor of [client.Client]
    ([keystoneclient/v2_0/client.py] is not among the sources).  Given
    a cached reference it is built from that alone and asks for no
    credential; otherwise it authenticates with the password plugin's
    [exchange], for which user name, password and auth url must be
    there. *)
Definition new (exchange : string → string → string → outcome Access.AuthReference)
    (o : Options) : outcome Client :=
  match opt_auth_ref o with
  | Some blob =>
      match Access.deserialize blob with
      | Some ref =>
          Return {| username := Access.username ref;
                    password := opt_password o;
                    auth_url := opt_auth_url o;
                    management_url := Access.management_url ref;
                    auth_ref := Some ref |}
      | None => Raise (Exn (Other "ValueError") "auth_ref")
      end
  | None =>
      match opt_username o, opt_password o, opt_auth_url o with
      | Some u, Some p, Some url =>
          match exchange u p url with
          | Return ref =>
              Return {| username := Some u;
                        password := Some p;
                        auth_url := Some url;
                        management_url := Access.management_url ref;
                        auth_ref := Some ref |}
          | Raise e => Raise e
          end
      | _, _, _ =>
          Raise (Exn AuthorizationFailure "credentials are missing")
      end
  end.

(** Modelled from the spec: the project-scoped response of
    [tests/client_fixtures.py], by what the scenario of section 8
    states of it: the token is scoped, the user is exampleuser and the
    management endpoint is the admin URL below.  The payload and the
    token value stand for whatever the fixture holds. *)
Definition PROJECT_SCOPED_TOKEN : Access.AuthReference :=
  {| Access.raw := Access.JObject [("access", Access.JObject [])];
     Access.token := "token";
     Access.expires := None;
     Access.scoped := true;
     Access.management_url := Some "http://admin:35357/v2.0";
     Access.username := Some "exampleuser";
     Access.tenant_name := None;
     Access.tenant_id := None |}.

(** Modelled from the spec: the patched transport of the tests, which
    answers every exchange with the fixture. *)
Definition mock_exchange (u p url : string) : outcome Access.AuthReference :=
  Return PROJECT_SCOPED_TOKEN.

End Client.

(** ** The session and the plugins it drives *)
Module Session.

(** Modelled from the spec: a plugin that caches its reference, as
    section 4.2 describes the contract (no such plugin is among the
    sources).  [exchange n] is what the provider answers to the
    exchange made after [n] earlier ones; [still_valid] tells a
    reference that can be used again. *)
Record Caching : Type := {
  cached : option Access.AuthReference;
  exchanges : nat
}.

Section Caching.
Variable exchange : nat → outcome Access.AuthReference.
Variable still_valid : Access.AuthReference → bool.

Definition caching_exchange (p : Caching) : outcome (option string) * Caching :=
  match exchange (exchanges p) with
  | Return ref =>
      (Return (Some (Access.token ref)),
       {| cached := Some ref; exchanges := S (exchanges p) |})
  | Raise e =>
      (Raise e, {| cached := cached p; exchanges := S (exchanges p) |})
  end.

Definition caching_get_token (p : Caching) : outcome (option string) * Caching :=
  match cached p with
  | Some ref =>
      if still_valid ref then (Return (Some (Access.token ref)), p)
      else caching_exchange p
  | None => caching_exchange p
  end.

Definition caching_invalidate (p : Caching) : bool * Caching :=
  match cached p with
  | Some _ => (true, {| cached := None; exchanges := exchanges p |})
  | None => (false, p)
  end.

Definition caching_plugin : Base.AuthPlugin Caching :=
  {| Base.get_token := caching_get_token;
     Base.invalidate := caching_invalidate |}.

End Caching.

(** Modelled from the spec: the state machine of section 4.3 for one
    outgoing request ([keystoneclient/session.py] is not among the
    sources).  The plugin and the service the request goes to act on
    one world [W]. *)
Section Session.
Context {W Response : Type}.
Context (plugin : Base.AuthPlugin W).

(** Modelled from the spec: what comes back for a request sent with a
    token (steps 4 and 5 of section 4.3): the unauthorized signal, any other response, or an error of the transport. *)
Inductive reply : Type :=
| unauthorized
| answered (r : Response)
| failed (e : exn).

Variable send : string → W → reply * W.

(** Modelled from the spec: the states of section 4.3; [Failed] is where an error of the
    plugin or of the transport ends the request unchanged. *)
Inductive phase : Type :=
| Unauthenticated
| Authenticated (token : string)
| Unauthenticatable
| AuthorizationFailed
| Completed (r : Response)
| Failed (e : exn).

Inductive event : Type :=
| AskedToken
| Sent (token : string)
| Invalidated (retry : bool).

(** Modelled from the spec: a request under way: its state, the retries it may still make
    (the bounded counter), the world, and what it did so far. *)
Record config : Type := {
  at_phase : phase;
  retries_left : nat;
  world : W;
  trace : list event
}.

(** Modelled from the spec: one transition of section 4.3.  Step 2 asks the plugin for a token; steps 3 to 5
    send the request and look at the reply.  On the unauthorized
    signal the counter is looked at first: with no retry left the
    request fails without another [invalidate]; otherwise the plugin
    is invalidated once and its answer decides between one more pass
    through step 2 and failure.  The terminal states have no
    transition. *)
Definition step (c : config) : option config :=
  match at_phase c with
  | Unauthenticated =>
      let '(r, w) := Base.get_token (world c) in
      let tr := trace c ++ [AskedToken] in
      Some
        match r with
        | Return (Some t) =>
            {| at_phase := Authenticated t; retries_left := retries_left c;
               world := w; trace := tr |}
        | Return None =>
            {| at_phase := Unauthenticatable; retries_left := retries_left c;
               world := w; trace := tr |}
        | Raise e =>
            {| at_phase := Failed e; retries_left := retries_left c;
               world := w; trace := tr |}
        end
  | Authenticated t =>
      let '(r, w) := send t (world c) in
      let tr := trace c ++ [Sent t] in
      Some
        match r with
        | answered x =>
            {| at_phase := Completed x; retries_left := retries_left c;
               world := w; trace := tr |}
        | failed e =>
            {| at_phase := Failed e; retries_left := retries_left c;
               world := w; trace := tr |}
        | unauthorized =>
            match retries_left c with
            | O =>
                {| at_phase := AuthorizationFailed; retries_left := O;
                   world := w; trace := tr |}
            | S n =>
                let '(b, w') := Base.invalidate w in
                {| at_phase := if b then Unauthenticated else AuthorizationFailed;
                   retries_left := n;
                   world := w';
                   trace := tr ++ [Invalidated b] |}
            end
        end
  | Unauthenticatable | AuthorizationFailed | Completed _ | Failed _ => None
  end.

Fixpoint run (fuel : nat) (c : config) : config :=
  match fuel with
  | O => c
  | S n =>
      match step c with
      | Some c' => run n c'
      | None => c
      end
  end.

(** Modelled from the spec: a logical request starts unauthenticated
    with one retry. *)
Definition start (w : W) : config :=
  {| at_phase := Unauthenticated; retries_left := 1; world := w; trace := [] |}.

(** Modelled from the spec: the request run to its end; two passes of
    two transitions each are all it can make. *)
Definition request (w : W) : config := run 4 (start w).

(** Modelled from the spec: what the caller gets in a terminal state
    (sections 4.3 and 7). *)
Definition surfaced (c : config) : option (outcome Response) :=
  match at_phase c with
  | Completed x => Some (Return x)
  | Unauthenticatable => Some (Raise (Exn (Other "MissingCredentials") "no credentials"))
  | AuthorizationFailed => Some (Raise (Exn AuthorizationFailure "unauthorized"))
  | Failed e => Some (Raise e)
  | Unauthenticated | Authenticated _ => None
  end.

End Session.

(** Counting what a request did. *)
Definition is_invalidated (ev : event) : bool :=
  match ev with
  | Invalidated _ => true
  | _ => false
  end.

Definition is_asked (ev : event) : bool :=
  match ev with
  | AskedToken => true
  | _ => false
  end.

Definition is_sent (ev : event) : bool :=
  match ev with
  | Sent _ => true
  | _ => false
  end.

Definition invalidations (tr : list event) : nat :=
  length (List.filter is_invalidated tr).

Definition attempts (tr : list event) : nat :=
  length (List.filter is_asked tr).

(** A retry is a pass through step 2 after the first. *)
Definition retries (tr : list event) : nat := pred (attempts tr).

Definition sends (tr : list event) : nat :=
  length (List.filter is_sent tr).

End Session.

(** ** Vocabulary of the statements *)

(** An environment variable that is set, and to something other than
    the empty string. *)
Definition set_nonempty (environ : gmap string string) (v : string) : Prop :=
  is_Some (environ !! v) ∧ environ !! v ≠ Some "".

#[global] Instance set_nonempty_dec environ v : Decision (set_nonempty environ v).
Proof. unfold set_nonempty. apply _. Defined.

(** The command line runs a command: it has no top-level help flag,
    it parses, to [args], and the command it names is not help. *)
Definition runs_command
    (parse_known_args : list string → Shell.Namespace)
    (parse_args : string → list string → outcome Shell.Namespace)
    (argv : list string) (args : Shell.Namespace) : Prop :=
  Shell.help (parse_known_args argv) = false ∧
  parse_args (Shell.identity_api_version (parse_known_args argv)) argv = Return args ∧
  Shell.func args ≠ Shell.do_help_method.

(** The keyword arguments of the two client constructors. *)
Definition generic_kwargs (args : Shell.Namespace) : Shell.Kwargs :=
  {[ "endpoint" := Some (Shell.auth_url args) ]}.

Definition client_kwargs (args : Shell.Namespace)
    (token endpoint : option string) : Shell.Kwargs :=
  list_to_map
    [("username", Some (Shell.username args));
     ("tenant_name", Some (Shell.tenant_name args));
     ("tenant_id", Some (Shell.os_tenant_id args));
     ("token", token);
     ("endpoint", endpoint);
     ("password", Some (Shell.password args));
     ("auth_url", Some (Shell.auth_url args));
     ("region_name", Some (Shell.region_name args))].

(** The first credential a command lacks, by the message that asks
    for it: none for a command marked as needing no authentication,
    and none when a token and an endpoint are both given. *)
Definition missing_credential (args : Shell.Namespace) : option string :=
  if Shell.isunauthenticated (Shell.func args) then None
  else if truthy (Shell.token args) && truthy (Shell.endpoint args) then None
  else if negb (truthy (Shell.username args)) then
    Some "You must provide a username via either --username or env[OS_USERNAME]"
  else if negb (truthy (Shell.password args)) then
    Some "You must provide a password via either --password or env[OS_PASSWORD]"
  else if negb (truthy (Shell.auth_url args)) then
    Some "You must provide an auth url via either --auth_url or via env[OS_AUTH_URL]"
  else None.

(** The token and the endpoint the client is given: both or none. *)
Definition token_and_endpoint (args : Shell.Namespace)
    : option string * option string :=
  if truthy (Shell.token args) && truthy (Shell.endpoint args)
  then (Some (Shell.token args), Some (Shell.endpoint args))
  else (None, None).

(** The constructor call the shell makes for a command, as the event
    it logs and as what the class answers. *)
Definition client_event (options args : Shell.Namespace) : Shell.event :=
  if Shell.isunauthenticated (Shell.func args) then
    Shell.NewGenericClient (generic_kwargs args)
  else
    Shell.NewClient (Shell.identity_api_version options)
      (client_kwargs args (token_and_endpoint args).1 (token_and_endpoint args).2).

Definition constructed {Client : Type}
    (generic_CLIENT_CLASS v2_0_CLIENT_CLASS : Shell.Kwargs → outcome Client)
    (args : Shell.Namespace) : outcome Client :=
  if Shell.isunauthenticated (Shell.func args) then
    generic_CLIENT_CLASS (generic_kwargs args)
  else
    v2_0_CLIENT_CLASS
      (client_kwargs args (token_and_endpoint args).1 (token_and_endpoint args).2).

(** What [main] makes of the way a callback ends. *)
Definition translated (r : outcome unit) : outcome (option Z) :=
  match r with
  | Return _ => Return None
  | Raise e =>
      if isinstance e Unauthorized then
        Raise (Exn CommandError "Invalid OpenStack Identity credentials.")
      else if isinstance e AuthorizationFailure then
        Raise (Exn CommandError "Unable to authorize user")
      else Raise e
  end.

(** The state in which the command of a command line starts: the
    sub-commands [s] are registered and the debug flag is applied. *)
Definition entered {Client : Type} (args : Shell.Namespace) (s : gset string)
    (st : @Shell.State Client) : Shell.State :=
  (if Shell.debug args then Shell.set_debuglevel 1 else id)
    (Shell.set_subcommands s st).

(** [main] refuses a command line with the message [msg]: it raises
    the command error before it has built a client, called a callback
    or printed anything. *)
Definition refused {Client : Type}
    (r : outcome (option Z) * @Shell.State Client)
    (st : @Shell.State Client) (msg : string) : Prop :=
  r.1 = Raise (Exn CommandError msg) ∧
  Shell.log r.2 = Shell.log st ∧
  Shell.cs r.2 = Shell.cs st.

(** The lines a run printed on the error stream. *)
Definition stderr (l : list Shell.event) : list string :=
  omap (λ ev, match ev with Shell.PrintErr line => Some line | _ => None end) l.

(** The failures of the exit contract, each with the message the
    shell gives it: a credential the command lacks, and a callback
    that ends in one of the two authentication errors. *)
Inductive cli_failure {Client : Type}
    (generic_CLIENT_CLASS v2_0_CLIENT_CLASS : Shell.Kwargs → outcome Client)
    (run : Shell.Action → Client → Shell.Namespace → outcome unit)
    (args : Shell.Namespace) : string → Prop :=
| credential_missing msg :
    missing_credential args = Some msg →
    cli_failure generic_CLIENT_CLASS v2_0_CLIENT_CLASS run args msg
| credentials_invalid a c e :
    missing_credential args = None →
    Shell.func args = Shell.action a →
    constructed generic_CLIENT_CLASS v2_0_CLIENT_CLASS args = Return c →
    run a c args = Raise e →
    isinstance e Unauthorized = true →
    cli_failure generic_CLIENT_CLASS v2_0_CLIENT_CLASS run args
      "Invalid OpenStack Identity credentials."
| authorization_failed a c e :
    missing_credential args = None →
    Shell.func args = Shell.action a →
    constructed generic_CLIENT_CLASS v2_0_CLIENT_CLASS args = Return c →
    run a c args = Raise e →
    isinstance e AuthorizationFailure = true →
    cli_failure generic_CLIENT_CLASS v2_0_CLIENT_CLASS run args
      "Unable to authorize user".

(** Every failure of the exit contract, by the exception that leaves
    [main] of the shell: one of the failures above, as the command
    error with its message, or an authentication error raised while
    the client is built, which no handler of the shell rewrites. *)
Inductive surfaced_failure {Client : Type}
    (generic_CLIENT_CLASS v2_0_CLIENT_CLASS : Shell.Kwargs → outcome Client)
    (run : Shell.Action → Client → Shell.Namespace → outcome unit)
    (args : Shell.Namespace) : exn → Prop :=
| surfaced_as_command_error msg :
    cli_failure generic_CLIENT_CLASS v2_0_CLIENT_CLASS run args msg →
    surfaced_failure generic_CLIENT_CLASS v2_0_CLIENT_CLASS run args
      (Exn CommandError msg)
| surfaced_from_constructor e :
    missing_credential args = None →
    constructed generic_CLIENT_CLASS v2_0_CLIENT_CLASS args = Raise e →
    exn_kind e = Unauthorized ∨ exn_kind e = AuthorizationFailure →
    surfaced_failure generic_CLIENT_CLASS v2_0_CLIENT_CLASS run args e.

(** The command [_find_actions] registers for a [do_] attribute. *)
Definition command_name (a : string) : string :=
  Shell.replace_char "_"%char "-"%char (Shell.string_drop 3 a).

(** The commands of a shell whose three places to scan have these
    attributes. *)
Definition registered (dir_shell_v2_0 dir_shell_generic dir_self : list string)
    : gset string :=
  Shell._find_actions
    (Shell._find_actions (Shell._find_actions ∅ dir_shell_v2_0) dir_shell_generic)
    dir_self.

(** A character occurs in a string. *)
Fixpoint occurs (c : Ascii.ascii) (s : string) : bool :=
  match s with
  | EmptyString => false
  | String a s' => Ascii.eqb a c || occurs c s'
  end.

(** An event that records the construction of a client. *)
Definition is_new_client (ev : Shell.event) : bool :=
  match ev with
  | Shell.NewGenericClient _ | Shell.NewClient _ _ => true
  | _ => false
  end.

(** What [main] makes of a call of [do_help]: the help of a known
    command, an error for an unknown one, the help of the program
    when no command is named. *)
Definition help_outcome {Client : Type} (args : Shell.Namespace)
    (st : @Shell.State Client) : outcome (option Z) * Shell.State :=
  match Shell.command args with
  | Some cmd =>
      if truthy cmd then
        if bool_decide (cmd ∈ Shell.subcommands st) then
          (Return (Some 0%Z), Shell.emit (Shell.PrintHelp (Some cmd)) st)
        else
          (Raise (Exn CommandError ("'" +:+ cmd +:+ "' is not a valid subcommand")),
           st)
      else (Return (Some 0%Z), Shell.emit (Shell.PrintHelp None) st)
  | None => (Return (Some 0%Z), Shell.emit (Shell.PrintHelp None) st)
  end.

(** ** A command line to try the statements on

    [keystone user-list] and [keystone discover] (the second marked as
    needing no authentication) under three sets of global options,
    with clients that always build and callbacks that always
    return. *)
Module Example.

Definition user_list : Shell.Callback :=
  Shell.action {| Shell.attr := "do_user_list"; Shell.unauthenticated := false |}.

Definition discover : Shell.Callback :=
  Shell.action {| Shell.attr := "do_discover"; Shell.unauthenticated := true |}.

Definition options (f : Shell.Callback) (user pass url tok ep : string)
    : Shell.Namespace :=
  {| Shell.help := false; Shell.debug := false;
     Shell.username := user; Shell.password := pass;
     Shell.tenant_name := ""; Shell.os_tenant_id := "";
     Shell.auth_url := url; Shell.region_name := "";
     Shell.identity_api_version := "2.0";
     Shell.token := tok; Shell.endpoint := ep;
     Shell.func := f; Shell.command := None |}.

(** A user name and nothing else. *)
Definition no_password : Shell.Namespace :=
  options user_list "admin" "" "" "" "".

(** Nothing at all, for the command that needs no authentication. *)
Definition nothing : Shell.Namespace :=
  options discover "" "" "" "" "".

(** A token and an endpoint, and no credentials. *)
Definition with_token : Shell.Namespace :=
  options user_list "" "" "" "abc" "http://admin:35357/v2.0".

(** The top-level help flag, on a command line that has no
    credentials. *)
Definition help_flag : Shell.Namespace :=
  {| Shell.help := true; Shell.debug := false;
     Shell.username := ""; Shell.password := "";
     Shell.tenant_name := ""; Shell.os_tenant_id := "";
     Shell.auth_url := ""; Shell.region_name := "";
     Shell.identity_api_version := "";
     Shell.token := ""; Shell.endpoint := "";
     Shell.func := Shell.do_help_method; Shell.command := None |}.

(** The help command, for a command or for the program. *)
Definition help_for (cmd : option string) : Shell.Namespace :=
  {| Shell.help := false; Shell.debug := false;
     Shell.username := ""; Shell.password := "";
     Shell.tenant_name := ""; Shell.os_tenant_id := "";
     Shell.auth_url := ""; Shell.region_name := "";
     Shell.identity_api_version := "";
     Shell.token := ""; Shell.endpoint := "";
     Shell.func := Shell.do_help_method; Shell.command := cmd |}.

(** A command line argparse refuses: it exits with status 2. *)
Definition parse_args_exits (version : string) (argv : list string)
    : outcome Shell.Namespace :=
  Raise (Exn SystemExit "2").

(** A callback that fails with an error of its own. *)
Definition run_fails (a : Shell.Action) (c : unit) (args : Shell.Namespace)
    : outcome unit := Raise (Exn CommandError "Unable to find user").

(** A client class whose constructor authenticates and is turned
    down, with a message of two lines. *)
Definition rejection : exn :=
  Exn AuthorizationFailure
    ("Authorization Failed:" +:+ String LF "Invalid user / password").

Definition CLIENT_CLASS_rejects (kwargs : Shell.Kwargs) : outcome unit :=
  Raise rejection.

(** Credentials for [keystone user-list]. *)
Definition with_password : Shell.Namespace :=
  options user_list "admin" "secret" "http://somewhere/" "" "".

Definition parse_known_args (ns : Shell.Namespace) (argv : list string)
    : Shell.Namespace := ns.

Definition parse_args (ns : Shell.Namespace) (version : string)
    (argv : list string) : outcome Shell.Namespace := Return ns.

Definition CLIENT_CLASS (kwargs : Shell.Kwargs) : outcome unit := Return ().

Definition run_ok (a : Shell.Action) (c : unit) (args : Shell.Namespace)
    : outcome unit := Return ().

End Example.

(** What is left to do: two transitions per pass, one pass per retry
    still allowed. *)
Definition measure {W Response : Type} (c : @Session.config W Response) : nat :=
  2 * Session.retries_left c +
  match Session.at_phase c with
  | Session.Unauthenticated => 2
  | Session.Authenticated _ => 1
  | _ => 0
  end.

(** What the counter guarantees in every state a request reaches. *)
Definition bounded {W Response : Type} (c : @Session.config W Response) : Prop :=
  Session.invalidations (Session.trace c) + Session.retries_left c = 1
  ∧ Session.attempts (Session.trace c) ≤ Session.invalidations (Session.trace c) + 1
  ∧ Session.sends (Session.trace c) ≤ Session.attempts (Session.trace c)
  ∧ (Session.at_phase c = Session.Unauthenticated → Session.attempts (Session.trace c) = Session.invalidations (Session.trace c))
  ∧ (∀ t, Session.at_phase c = Session.Authenticated t → Session.sends (Session.trace c) < Session.attempts (Session.trace c)).

(** ** Plugins to try the statements on

    Both always have a token.  The first inherits [invalidate] from
    [BaseAuthPlugin]; the second always claims to have dropped
    something.  The service answers every request with the
    unauthorized signal. *)
Module SessionExample.

Definition static_plugin : Base.AuthPlugin unit :=
  {| Base.get_token := λ w, (Return (Some "token"), w);
     Base.invalidate := Base.BaseAuthPlugin_invalidate |}.

Definition stubborn_plugin : Base.AuthPlugin unit :=
  {| Base.get_token := λ w, (Return (Some "token"), w);
     Base.invalidate := λ w, (true, w) |}.

Definition always_unauthorized (t : string) (w : unit)
    : @Session.reply unit * unit :=
  (Session.unauthorized, w).

End SessionExample.

(** * Theorems *)

Lemma truthy_true s : truthy s = true ↔ s ≠ "".
Proof. destruct s; simpl; split; congruence. Qed.

Lemma truthy_false s : truthy s = false ↔ s = "".
Proof. destruct s; simpl; split; congruence. Qed.

(** ** keystoneclient/auth/base.py *)
Module BaseTheory.
Import Base.

(** Only [RuntimeError] is turned into [NoMatchingPlugin]; whatever
    else the driver manager raises leaves [get_plugin_class] as it
    is. *)
Lemma get_plugin_class_with_other {C : Type}
    (DM : string → string → bool → outcome (@Manager C)) name e :
  DM PLUGIN_NAMESPACE name false = Raise e →
  isinstance e RuntimeError = false →
  get_plugin_class_with DM name = Raise e.
Proof. intros HDM He. unfold get_plugin_class_with. by rewrite HDM, He. Qed.

(** C1: for a name registered under the plugin namespace,
    [get_plugin_class] returns the class bound to it; for a name with
    no entry it raises [NoMatchingPlugin], with the message of the
    source, and not the [RuntimeError] of the lookup. *)
Theorem get_plugin_class_resolves {C : Type}
    (entry_points : gmap (string * string) C) (name : string) :
  get_plugin_class entry_points name =
    match entry_points !! (PLUGIN_NAMESPACE, name) with
    | Some cls => Return cls
    | None =>
        Raise (Exn NoMatchingPlugin
                 ("The plugin " +:+ name +:+ " could not be found"))
    end.
Proof.
  unfold get_plugin_class, get_plugin_class_with, DriverManager.
  destruct (entry_points !! (PLUGIN_NAMESPACE, name)) as [cls|]; reflexivity.
Qed.

End BaseTheory.

(** ** keystoneclient/shell.py *)
Module ShellTheory.
Import Shell.

Lemma env_unset environ v vars kwargs :
  ¬ set_nonempty environ v →
  env environ (v :: vars) kwargs = env environ vars kwargs.
Proof.
  intros Hv. simpl. destruct (environ !! v) as [s|] eqn:E; [|done].
  destruct s as [|a s]; [done|]. exfalso. apply Hv. unfold set_nonempty.
  rewrite E. split; [by eexists | discriminate].
Qed.

Lemma env_set environ v vars kwargs :
  set_nonempty environ v →
  env environ (v :: vars) kwargs = environ !!! v.
Proof.
  intros [[s E] Hne]. simpl. rewrite lookup_total_alt, E. simpl.
  destruct s as [|a s]; [by rewrite E in Hne|done].
Qed.

(** C10: [env] returns the value of the first listed variable that is
    set and non-empty, and otherwise the [default] keyword argument,
    or the empty string without one; and a variable set to the empty
    string counts exactly as one that is not set. *)
Theorem env_first_set_nonempty (environ : gmap string string)
    (vars : list string) (kwargs : gmap string string) :
  env environ vars kwargs =
    match list_find (set_nonempty environ) vars with
    | Some (_, v) => environ !!! v
    | None => default "" (kwargs !! "default")
    end
  ∧ ∀ v, env (<[v := ""]> environ) vars kwargs = env (delete v environ) vars kwargs.
Proof.
  split.
  - induction vars as [|u vars IH]; [done|].
    cbn [list_find]. destruct (decide (set_nonempty environ u)) as [Hu|Hu].
    + by apply env_set.
    + rewrite env_unset by done. rewrite IH.
      by destruct (list_find _ vars) as [[i w]|].
  - intros v. induction vars as [|u vars IH]; [done|].
    simpl. destruct (decide (v = u)) as [->|Hne].
    + by rewrite lookup_insert_eq, lookup_delete_eq.
    + rewrite lookup_insert_ne, lookup_delete_ne by done.
      destruct (environ !! u) as [s|]; [|done]. by destruct (truthy s).
Qed.

Section Main.
Context {Client : Type}.
Variable parse_known_args : list string → Namespace.
Variable parse_args : string → list string → outcome Namespace.
Variable generic_CLIENT_CLASS : Kwargs → outcome Client.
Variable v2_0_CLIENT_CLASS : Kwargs → outcome Client.
Variable dir_shell_v2_0 dir_shell_generic dir_self : list string.
Variable run : Action → Client → Namespace → outcome unit.

#[local] Abbreviation shell_main :=
  (OpenStackIdentityShell_main parse_known_args parse_args
     generic_CLIENT_CLASS v2_0_CLIENT_CLASS
     dir_shell_v2_0 dir_shell_generic dir_self run).
#[local] Abbreviation runs := (runs_command parse_known_args parse_args).

#[local] Abbreviation constructed_for := (constructed generic_CLIENT_CLASS v2_0_CLIENT_CLASS).

Lemma get_subcommand_parser_runs version (st : @State Client) :
  ∃ s,
    OpenStackIdentityShell_get_subcommand_parser
      dir_shell_v2_0 dir_shell_generic dir_self version st
    = (Return (), set_subcommands s st).
Proof.
  exists (subcommands
            (OpenStackIdentityShell_get_subcommand_parser
               dir_shell_v2_0 dir_shell_generic dir_self version st).2).
  reflexivity.
Qed.

Lemma check_credentials_eq args (st : @State Client) :
  check_credentials args st =
    (match missing_credential args with
     | Some msg => Raise (Exn CommandError msg)
     | None => Return ()
     end, st).
Proof.
  unfold check_credentials, missing_credential.
  destruct (isunauthenticated (func args)); [done|].
  destruct (truthy (token args) && truthy (endpoint args)); [done|].
  cbn [negb]. unfold mbind, M_bind, bind.
  destruct (truthy (username args)); [|done].
  destruct (truthy (password args)); [|done].
  by destruct (truthy (auth_url args)).
Qed.

Lemma get_api_class_eq version :
  OpenStackIdentityShell_get_api_class v2_0_CLIENT_CLASS version = v2_0_CLIENT_CLASS.
Proof.
  unfold OpenStackIdentityShell_get_api_class.
  case_match eqn:E; [|done]. by apply lookup_singleton_Some in E as [_ <-].
Qed.

Lemma make_client_eq options args (st : @State Client) :
  make_client generic_CLIENT_CLASS v2_0_CLIENT_CLASS options args st =
    match constructed_for args with
    | Return c => (Return (), set_cs c (emit (client_event options args) st))
    | Raise e => (Raise e, emit (client_event options args) st)
    end.
Proof.
  unfold make_client, constructed, client_event, token_and_endpoint.
  destruct (isunauthenticated (func args)).
  - unfold mbind, M_bind, bind, lift, modify, generic_kwargs. cbn.
    by destruct (generic_CLIENT_CLASS _).
  - destruct (truthy (token args) && truthy (endpoint args));
      unfold mbind, M_bind, bind, lift, modify, client_kwargs; cbn;
      rewrite get_api_class_eq; by destruct (v2_0_CLIENT_CLASS _).
Qed.

Lemma dispatch_eq args a c (st : @State Client) :
  func args = action a →
  cs st = Some c →
  dispatch run args st =
    (match run a c args with
     | Return _ => Return ()
     | Raise e =>
         if isinstance e Unauthorized then
           Raise (Exn CommandError "Invalid OpenStack Identity credentials.")
         else if isinstance e AuthorizationFailure then
           Raise (Exn CommandError "Unable to authorize user")
         else Raise e
     end, emit (Called (func args)) st).
Proof.
  intros Hf Hc. unfold dispatch, try_except, call_func.
  unfold mbind, M_bind, bind, get, modify, lift. rewrite Hc. cbn. rewrite Hf.
  destruct (run a c args) as [[]|e]; [done|].
  cbn [list_find]. cbn [fst snd].
  destruct (decide (isinstance e Unauthorized = true)) as [->|H1]; [done|].
  apply not_true_is_false in H1. rewrite H1.
  destruct (decide (isinstance e AuthorizationFailure = true)) as [->|H2]; [done|].
  apply not_true_is_false in H2. by rewrite H2.
Qed.

(** What [main] does for a command line that runs a command. *)
Lemma main_command argv args a (st : @State Client) :
  runs argv args →
  func args = action a →
  ∃ s,
    shell_main argv st =
      match missing_credential args with
      | Some msg => (Raise (Exn CommandError msg), entered args s st)
      | None =>
          let ev := client_event (parse_known_args argv) args in
          match constructed_for args with
          | Raise e => (Raise e, emit ev (entered args s st))
          | Return c =>
              (translated (run a c args),
               emit (Called (func args)) (set_cs c (emit ev (entered args s st))))
          end
      end.
Proof.
  intros (Hh & Hp & Hne) Hf.
  destruct (get_subcommand_parser_runs
              (identity_api_version (parse_known_args argv)) st) as [s Hs].
  exists s. unfold OpenStackIdentityShell_main. rewrite Hh.
  unfold mbind at 1. unfold M_bind, bind at 1. rewrite Hs.
  unfold mbind at 1. unfold bind at 1. unfold lift at 1. rewrite Hp.
  unfold mbind at 1. unfold bind at 1.
  assert ((if debug args then modify (set_debuglevel 1) else mret ())
            (set_subcommands s st) = (Return (), entered args s st)) as ->.
  { unfold entered. by destruct (debug args). }
  rewrite bool_decide_eq_false_2 by done.
  unfold mbind at 1. unfold bind at 1. rewrite check_credentials_eq.
  destruct (missing_credential args) as [msg|]; [done|].
  unfold mbind at 1. unfold bind at 1. rewrite make_client_eq.
  cbv zeta. destruct (constructed_for args) as [c|e]; [|done].
  unfold mbind at 1. unfold bind at 1.
  rewrite (dispatch_eq args a c) by done.
  unfold translated. destruct (run a c args) as [[]|e]; [done|].
  destruct (isinstance e Unauthorized); [done|].
  by destruct (isinstance e AuthorizationFailure).
Qed.

#[local] Abbreviation process_main :=
  (main parse_known_args parse_args
     generic_CLIENT_CLASS v2_0_CLIENT_CLASS
     dir_shell_v2_0 dir_shell_generic dir_self run).
#[local] Abbreviation failure := (cli_failure generic_CLIENT_CLASS v2_0_CLIENT_CLASS run).

Lemma entered_log args s (st : @State Client) : log (entered args s st) = log st.
Proof. unfold entered. by destruct (debug args). Qed.

Lemma entered_cs args s (st : @State Client) : cs (entered args s st) = cs st.
Proof. unfold entered. by destruct (debug args). Qed.

Lemma entered_debuglevel args s (st : @State Client) :
  debuglevel (entered args s st) = if debug args then 1%Z else debuglevel st.
Proof. unfold entered. by destruct (debug args). Qed.

Lemma runs_action argv args : runs argv args → ∃ a, func args = action a.
Proof. intros (_ & _ & Hne). destruct (func args) as [|a]; [done|by exists a]. Qed.

(** A command line that lacks a credential is refused with the
    message that asks for it. *)
Lemma main_refuses argv args msg (st : @State Client) :
  runs argv args →
  missing_credential args = Some msg →
  refused (shell_main argv st) st msg.
Proof.
  intros Hruns Hmsg. destruct (runs_action argv args Hruns) as [a Ha].
  destruct (main_command argv args a st Hruns Ha) as [s ->].
  rewrite Hmsg. unfold refused. cbn [fst snd].
  by rewrite entered_log, entered_cs.
Qed.

(** C5: a command that requires authentication, given a user name and
    an empty password, and not both a token and an endpoint, fails
    with the command error that asks for the password; no client has
    been built and no callback called by then, so nothing has gone to
    the network. *)
Theorem password_required argv args (st : @State Client) :
  runs argv args →
  isunauthenticated (func args) = false →
  username args ≠ "" →
  password args = "" →
  ¬ (token args ≠ "" ∧ endpoint args ≠ "") →
  refused (shell_main argv st) st
    "You must provide a password via either --password or env[OS_PASSWORD]"
  ∧ contains "password"
      "You must provide a password via either --password or env[OS_PASSWORD]"
    = true.
Proof.
  intros Hruns Hauth Hu Hp Hte. split; [|reflexivity].
  apply (main_refuses argv args); [done|].
  unfold missing_credential. rewrite Hauth, Hp.
  apply truthy_true in Hu. rewrite Hu. cbn.
  destruct (truthy (token args)) eqn:Ht; [|done].
  destruct (truthy (endpoint args)) eqn:He; [|done].
  exfalso. apply Hte. by rewrite <- !truthy_true.
Qed.

(** C6: a command marked as needing no authentication gets the
    generic client on the auth url, whatever the user name, the
    password and the auth url are, and its callback is called; what
    [main] then returns or raises is what the client class or the
    callback did, never a demand for a credential. *)
Theorem unauthenticated_command_skips_checks argv args (st : @State Client) :
  runs argv args →
  isunauthenticated (func args) = true →
  ∃ a s,
    func args = action a ∧
    let st1 := emit (NewGenericClient (generic_kwargs args)) (entered args s st) in
    shell_main argv st =
      match generic_CLIENT_CLASS (generic_kwargs args) with
      | Raise e => (Raise e, st1)
      | Return c =>
          (translated (run a c args), emit (Called (func args)) (set_cs c st1))
      end.
Proof.
  intros Hruns Hun. destruct (runs_action argv args Hruns) as [a Ha].
  destruct (main_command argv args a st Hruns Ha) as [s Hs].
  exists a, s. split; [done|]. rewrite Hs.
  unfold missing_credential, client_event, constructed. by rewrite Hun.
Qed.

(** C9: for a command that requires authentication, a token and an
    endpoint that are both non-empty switch the three checks off: the
    client is built with that token and that endpoint whatever the
    user name, the password and the auth url are.  With the token or
    the endpoint missing, the checks run: the first of user name,
    password and auth url that is empty is asked for, and the client,
    when none is, gets neither token nor endpoint. *)
Theorem token_and_endpoint_skip_checks argv args a (st : @State Client) :
  runs argv args →
  func args = action a →
  unauthenticated a = false →
  ∃ s,
    let version := identity_api_version (parse_known_args argv) in
    let built kwargs :=
      let st1 := emit (NewClient version kwargs) (entered args s st) in
      match v2_0_CLIENT_CLASS kwargs with
      | Raise e => (Raise e, st1)
      | Return c =>
          (translated (run a c args), emit (Called (func args)) (set_cs c st1))
      end in
    (token args ≠ "" ∧ endpoint args ≠ "" →
     shell_main argv st =
       built (client_kwargs args (Some (token args)) (Some (endpoint args))))
    ∧ (token args = "" ∨ endpoint args = "" →
       (username args = "" →
        refused (shell_main argv st) st
          "You must provide a username via either --username or env[OS_USERNAME]")
       ∧ (username args ≠ "" → password args = "" →
          refused (shell_main argv st) st
            "You must provide a password via either --password or env[OS_PASSWORD]")
       ∧ (username args ≠ "" → password args ≠ "" → auth_url args = "" →
          refused (shell_main argv st) st
            "You must provide an auth url via either --auth_url or via env[OS_AUTH_URL]")
       ∧ (username args ≠ "" → password args ≠ "" → auth_url args ≠ "" →
          shell_main argv st = built (client_kwargs args None None))).
Proof.
  intros Hruns Ha Hauth.
  assert (isunauthenticated (func args) = false) as Hun by by rewrite Ha.
  destruct (main_command argv args a st Hruns Ha) as [s Hs].
  exists s. cbv zeta. split.
  - intros [Ht He]. apply truthy_true in Ht, He. rewrite Hs.
    unfold missing_credential, client_event, constructed, token_and_endpoint.
    by rewrite Hun, Ht, He.
  - intros Hte.
    assert (truthy (token args) && truthy (endpoint args) = false) as Hboth.
    { destruct Hte as [->| ->]; [done|]. by rewrite andb_false_r. }
    assert (∀ msg, missing_credential args = Some msg →
                   refused (shell_main argv st) st msg) as Hrefused
      by (intros msg; by apply (main_refuses argv args)).
    split; [|split; [|split]].
    + intros Hu. apply Hrefused. unfold missing_credential.
      by rewrite Hun, Hboth, Hu.
    + intros Hu%truthy_true Hp. apply Hrefused. unfold missing_credential.
      by rewrite Hun, Hboth, Hu, Hp.
    + intros Hu%truthy_true Hp%truthy_true Hurl. apply Hrefused.
      unfold missing_credential. by rewrite Hun, Hboth, Hu, Hp, Hurl.
    + intros Hu%truthy_true Hp%truthy_true Hurl%truthy_true. rewrite Hs.
      unfold missing_credential, client_event, constructed, token_and_endpoint.
      by rewrite Hun, Hboth, Hu, Hp, Hurl.
Qed.

Lemma stderr_emit (l : list event) ev :
  stderr (l ++ [ev]) =
    stderr l ++ match ev with PrintErr line => [line] | _ => [] end.
Proof.
  unfold stderr. rewrite omap_app. f_equal. by destruct ev.
Qed.

Lemma missing_credential_single_line args msg :
  missing_credential args = Some msg → single_line msg = true.
Proof.
  unfold missing_credential. intros H.
  repeat case_match; by simplify_eq.
Qed.

(** Every failure of the exit contract leaves [main] of the shell as
    a command error with its message; the debug level is 1 exactly
    when the debug flag was given, and nothing went to the error
    stream. *)
Lemma main_failure argv args msg (st : @State Client) :
  runs argv args →
  failure args msg →
  ∃ st',
    shell_main argv st = (Raise (Exn CommandError msg), st') ∧
    debuglevel st' = (if debug args then 1%Z else debuglevel st) ∧
    stderr (log st') = stderr (log st).
Proof.
  intros Hruns Hfail. destruct (runs_action argv args Hruns) as [a Ha].
  destruct (main_command argv args a st Hruns Ha) as [s Hs].
  destruct Hfail as [msg Hmsg|a' c e Hmsg Ha' Hc Hrun He|a' c e Hmsg Ha' Hc Hrun He].
  - rewrite Hmsg in Hs. eexists. split; [exact Hs|].
    by rewrite entered_debuglevel, entered_log.
  - assert (a' = a) as -> by congruence.
    rewrite Hmsg, Hc in Hs. cbv zeta in Hs. rewrite Hrun in Hs.
    unfold translated in Hs. rewrite He in Hs.
    eexists. split; [exact Hs|]. cbn [debuglevel log emit set_cs].
    rewrite !stderr_emit, entered_debuglevel, entered_log.
    destruct (client_event _ args) eqn:Hev; rewrite ?app_nil_r; try done.
    all: unfold client_event in Hev; by case_match.
  - assert (a' = a) as -> by congruence.
    rewrite Hmsg, Hc in Hs. cbv zeta in Hs. rewrite Hrun in Hs.
    unfold translated in Hs. rewrite He in Hs.
    assert (isinstance e Unauthorized = false) as Hnot.
    { unfold isinstance in *. apply bool_decide_eq_true in He.
      apply bool_decide_eq_false. by rewrite He. }
    rewrite Hnot in Hs.
    eexists. split; [exact Hs|]. cbn [debuglevel log emit set_cs].
    rewrite !stderr_emit, entered_debuglevel, entered_log.
    destruct (client_event _ args) eqn:Hev; rewrite ?app_nil_r; try done.
    all: unfold client_event in Hev; by case_match.
Qed.

(** Any exception that leaves [main] of the shell, an authentication
    error raised while the client is built included, is printed as
    its message before the process exits with status 1, unless the
    debug level is 1, when it goes on uncaught. *)
Lemma main_reports_exception argv (d : Z) e (st' : @State Client) :
  shell_main argv (fresh d) = (Raise e, st') →
  is_Exception e = true →
  process_main argv d =
    if bool_decide (debuglevel st' = 1%Z) then (Uncaught e, st')
    else (Exited 1, emit (PrintErr (exn_message e)) st').
Proof. intros Hmain He. unfold main. by rewrite Hmain, He. Qed.

(** A credential the command lacks and an authentication error of
    the callback both end the process the same way.  Without the
    debug flag it exits with status 1 after printing the one-line
    message, and nothing else, on the error stream; with the debug
    flag the command error leaves [main] uncaught and nothing is
    printed there by [main]. *)
Lemma command_error_exit argv args msg (d : Z) :
  runs argv args →
  failure args msg →
  single_line msg = true
  ∧ (debug args = true →
     (process_main argv d).1 = Uncaught (Exn CommandError msg)
     ∧ stderr (log (process_main argv d).2) = [])
  ∧ (debug args = false → d ≠ 1%Z →
     (process_main argv d).1 = Exited 1
     ∧ stderr (log (process_main argv d).2) = [msg]).
Proof.
  intros Hruns Hfail.
  destruct (main_failure argv args msg (fresh d) Hruns Hfail)
    as (st' & Hmain & Hdebug & Herr).
  split; [|split].
  - destruct Hfail as [msg Hmsg| |]; [|done..].
    by apply missing_credential_single_line with args.
  - intros Hd. unfold main. rewrite Hmain.
    assert (is_Exception (Exn CommandError msg) = true) as -> by reflexivity.
    rewrite Hd in Hdebug. rewrite Hdebug.
    rewrite bool_decide_eq_true_2 by done. cbn [fst snd].
    by rewrite Herr.
  - intros Hd Hne. unfold main. rewrite Hmain.
    assert (is_Exception (Exn CommandError msg) = true) as -> by reflexivity.
    rewrite Hd in Hdebug. rewrite Hdebug. cbn [fresh debuglevel].
    rewrite bool_decide_eq_false_2 by done. cbn [fst snd emit log exn_message].
    by rewrite stderr_emit, Herr.
Qed.

(** An authentication error raised while the client is built leaves
    [main] of the shell as it is: it is raised before the [try] of
    the callback, so no handler rewrites it. *)
Lemma main_constructor_failure argv args e (st : @State Client) :
  runs argv args →
  missing_credential args = None →
  constructed_for args = Raise e →
  ∃ st',
    shell_main argv st = (Raise e, st') ∧
    debuglevel st' = (if debug args then 1%Z else debuglevel st) ∧
    stderr (log st') = stderr (log st).
Proof.
  intros Hruns Hm Hc. destruct (runs_action argv args Hruns) as [a Ha].
  destruct (main_command argv args a st Hruns Ha) as [s Hs].
  rewrite Hm in Hs. cbv zeta in Hs. rewrite Hc in Hs.
  eexists. split; [exact Hs|]. cbn [debuglevel log emit].
  rewrite stderr_emit, entered_debuglevel, entered_log. split; [done|].
  destruct (client_event _ args) eqn:Hev; rewrite ?app_nil_r; try done.
  all: unfold client_event in Hev; by case_match.
Qed.

(** C8, amended: every failure of the exit contract, a credential
    the command lacks, an authentication error of the callback, and
    an authentication error raised while the client is built, ends
    the process the same way.  Without the debug flag the process
    exits with status 1 after one print of the exception's message,
    and nothing else, on the error stream; with the debug flag the
    exception leaves [main] uncaught and [main] prints nothing
    there.  The message is one line whenever the shell words it, that
    is for the command errors of the first two kinds; an error raised
    while the client is built is printed in its own words. *)
Theorem failure_exit_contract argv args e (d : Z) :
  runs argv args →
  surfaced_failure generic_CLIENT_CLASS v2_0_CLIENT_CLASS run args e →
  (exn_kind e = CommandError → single_line (exn_message e) = true)
  ∧ (debug args = true →
     (process_main argv d).1 = Uncaught e
     ∧ stderr (log (process_main argv d).2) = [])
  ∧ (debug args = false → d ≠ 1%Z →
     (process_main argv d).1 = Exited 1
     ∧ stderr (log (process_main argv d).2) = [exn_message e]).
Proof.
  intros Hruns [msg Hfail|e' Hm Hc Hk].
  - destruct (command_error_exit argv args msg d Hruns Hfail) as (H1 & H2 & H3).
    split; [intros _; exact H1|]. split; [exact H2|exact H3].
  - destruct (main_constructor_failure argv args e' (fresh d) Hruns Hm Hc)
      as (st' & Hmain & Hdebug & Herr).
    assert (is_Exception e' = true) as He.
    { unfold is_Exception, isinstance.
      rewrite bool_decide_eq_false_2; [done|]. destruct Hk as [-> | ->]; done. }
    split; [|split].
    + intros Hkind. destruct Hk as [Hk|Hk]; by rewrite Hk in Hkind.
    + intros Hd. unfold main. rewrite Hmain, He.
      rewrite Hd in Hdebug. rewrite Hdebug.
      rewrite bool_decide_eq_true_2 by done. cbn [fst snd]. by rewrite Herr.
    + intros Hd Hne. unfold main. rewrite Hmain, He.
      rewrite Hd in Hdebug. rewrite Hdebug. cbn [fresh debuglevel].
      rewrite bool_decide_eq_false_2 by done. cbn [fst snd emit log].
      by rewrite stderr_emit, Herr.
Qed.

End Main.

(** The statements on the command lines of [Example]. *)
#[local] Abbreviation example_main ns :=
  (OpenStackIdentityShell_main
     (Example.parse_known_args ns) (Example.parse_args ns)
     Example.CLIENT_CLASS Example.CLIENT_CLASS
     ["do_user_list"] ["do_discover"] ["do_help"; "main"] Example.run_ok).
#[local] Abbreviation example_runs ns :=
  (runs_command (Example.parse_known_args ns) (Example.parse_args ns)).

Lemma password_required_witness :
  example_runs Example.no_password ["user-list"] Example.no_password
  ∧ refused (example_main Example.no_password ["user-list"] (fresh 0))
      (fresh 0)
      "You must provide a password via either --password or env[OS_PASSWORD]"
  ∧ contains "password"
      "You must provide a password via either --password or env[OS_PASSWORD]"
    = true.
Proof.
  assert (example_runs Example.no_password ["user-list"] Example.no_password)
    as Hruns by (split; [reflexivity|split; [reflexivity|discriminate]]).
  split; [exact Hruns|].
  apply (password_required
           (Example.parse_known_args Example.no_password)
           (Example.parse_args Example.no_password)
           Example.CLIENT_CLASS Example.CLIENT_CLASS
           ["do_user_list"] ["do_discover"] ["do_help"; "main"] Example.run_ok
           ["user-list"] Example.no_password (fresh 0) Hruns).
  - reflexivity.
  - discriminate.
  - reflexivity.
  - intros [Ht _]. by apply Ht.
Defined.

Lemma unauthenticated_command_skips_checks_witness :
  example_runs Example.nothing ["discover"] Example.nothing
  ∧ ∃ a s,
      func Example.nothing = action a ∧
      let st1 :=
        emit (NewGenericClient (generic_kwargs Example.nothing))
          (entered Example.nothing s (fresh 0)) in
      example_main Example.nothing ["discover"] (fresh 0) =
        match Example.CLIENT_CLASS (generic_kwargs Example.nothing) with
        | Raise e => (Raise e, st1)
        | Return c =>
            (translated (Example.run_ok a c Example.nothing),
             emit (Called (func Example.nothing)) (set_cs c st1))
        end.
Proof.
  assert (example_runs Example.nothing ["discover"] Example.nothing)
    as Hruns by (split; [reflexivity|split; [reflexivity|discriminate]]).
  split; [exact Hruns|].
  apply (unauthenticated_command_skips_checks
           (Example.parse_known_args Example.nothing)
           (Example.parse_args Example.nothing)
           Example.CLIENT_CLASS Example.CLIENT_CLASS
           ["do_user_list"] ["do_discover"] ["do_help"; "main"] Example.run_ok
           ["discover"] Example.nothing (fresh 0) Hruns).
  reflexivity.
Defined.

Lemma token_and_endpoint_skip_checks_witness :
  example_runs Example.with_token ["user-list"] Example.with_token
  ∧ ∃ s,
      example_main Example.with_token ["user-list"] (fresh 0) =
        (Return None,
         emit (Called Example.user_list)
           (set_cs ()
              (emit
                 (NewClient "2.0"
                    (client_kwargs Example.with_token
                       (Some "abc") (Some "http://admin:35357/v2.0")))
                 (entered Example.with_token s (fresh 0))))).
Proof.
  assert (example_runs Example.with_token ["user-list"] Example.with_token)
    as Hruns by (split; [reflexivity|split; [reflexivity|discriminate]]).
  split; [exact Hruns|].
  destruct (token_and_endpoint_skip_checks
              (Example.parse_known_args Example.with_token)
              (Example.parse_args Example.with_token)
              Example.CLIENT_CLASS Example.CLIENT_CLASS
              ["do_user_list"] ["do_discover"] ["do_help"; "main"] Example.run_ok
              ["user-list"] Example.with_token
              {| attr := "do_user_list"; unauthenticated := false |}
              (fresh 0) Hruns eq_refl eq_refl) as [s [Hboth _]].
  exists s. apply Hboth. split; discriminate.
Defined.

Lemma failure_exit_contract_witness :
  example_runs Example.no_password ["user-list"] Example.no_password
  ∧ (main
       (Example.parse_known_args Example.no_password)
       (Example.parse_args Example.no_password)
       Example.CLIENT_CLASS Example.CLIENT_CLASS
       ["do_user_list"] ["do_discover"] ["do_help"; "main"] Example.run_ok
       ["user-list"] 0).1 = Exited 1.
Proof.
  assert (example_runs Example.no_password ["user-list"] Example.no_password)
    as Hruns by (split; [reflexivity|split; [reflexivity|discriminate]]).
  split; [exact Hruns|].
  destruct (failure_exit_contract
              (Example.parse_known_args Example.no_password)
              (Example.parse_args Example.no_password)
              Example.CLIENT_CLASS Example.CLIENT_CLASS
              ["do_user_list"] ["do_discover"] ["do_help"; "main"] Example.run_ok
              ["user-list"] Example.no_password
              (Exn CommandError
                 "You must provide a password via either --password or env[OS_PASSWORD]")
              0 Hruns
              (surfaced_as_command_error Example.CLIENT_CLASS Example.CLIENT_CLASS
                 Example.run_ok Example.no_password
                 "You must provide a password via either --password or env[OS_PASSWORD]"
                 (credential_missing Example.CLIENT_CLASS Example.CLIENT_CLASS
                    Example.run_ok Example.no_password
                    "You must provide a password via either --password or env[OS_PASSWORD]"
                    eq_refl)))
    as (_ & _ & Hquiet).
  by apply Hquiet.
Defined.

(** With credentials that pass the checks and a client class that is
    turned down while it authenticates in its constructor, the
    process exits with status 1 and prints the exception's own
    message, which here has two lines. *)
Lemma failure_exit_contract_counterexample :
  example_runs Example.with_password ["user-list"] Example.with_password
  ∧ surfaced_failure Example.CLIENT_CLASS Example.CLIENT_CLASS_rejects
      Example.run_ok Example.with_password Example.rejection
  ∧ (main
       (Example.parse_known_args Example.with_password)
       (Example.parse_args Example.with_password)
       Example.CLIENT_CLASS Example.CLIENT_CLASS_rejects
       ["do_user_list"] ["do_discover"] ["do_help"; "main"] Example.run_ok
       ["user-list"] 0).1 = Exited 1
  ∧ stderr
      (log (main
              (Example.parse_known_args Example.with_password)
              (Example.parse_args Example.with_password)
              Example.CLIENT_CLASS Example.CLIENT_CLASS_rejects
              ["do_user_list"] ["do_discover"] ["do_help"; "main"] Example.run_ok
              ["user-list"] 0).2)
    = [exn_message Example.rejection]
  ∧ single_line (exn_message Example.rejection) = false.
Proof.
  split; [split; [reflexivity|split; [reflexivity|discriminate]]|].
  split.
  { apply surfaced_from_constructor; [reflexivity|reflexivity|by right]. }
  split; [by vm_compute|]. split; by vm_compute.
Qed.

End ShellTheory.

(** ** The session *)
Module SessionTheory.
Import Session.

Lemma invalidations_snoc tr ev :
  invalidations (tr ++ [ev]) = invalidations tr + (if is_invalidated ev then 1 else 0).
Proof.
  unfold invalidations. rewrite List.filter_app, length_app. cbn.
  by destruct (is_invalidated ev).
Qed.

Lemma attempts_snoc tr ev :
  attempts (tr ++ [ev]) = attempts tr + (if is_asked ev then 1 else 0).
Proof.
  unfold attempts. rewrite List.filter_app, length_app. cbn.
  by destruct (is_asked ev).
Qed.

Lemma sends_snoc tr ev :
  sends (tr ++ [ev]) = sends tr + (if is_sent ev then 1 else 0).
Proof.
  unfold sends. rewrite List.filter_app, length_app. cbn.
  by destruct (is_sent ev).
Qed.

(** One transition of a request whose plugin and service answers are
    known from hypotheses. *)
Ltac advance :=
  unfold Session.step at 1;
  cbn [at_phase retries_left world trace];
  repeat match goal with
         | H : _ = (_, _) |- _ => rewrite H
         end.

Section Facts.
Context {W Response : Type}.
Variable plugin : Base.AuthPlugin W.
Variable send : string → W → @reply Response * W.

#[local] Abbreviation config := (@config W Response).
#[local] Abbreviation step := (@step W Response plugin send).
#[local] Abbreviation run := (@run W Response plugin send).
#[local] Abbreviation request := (@request W Response plugin send).

Lemma step_measure c c' : step c = Some c' → measure c' < measure c.
Proof.
  unfold Session.step, measure. destruct c as [ph n w tr]. cbn.
  destruct ph as [|t| | | |]; try discriminate.
  - destruct (Base.get_token w) as [[[t|]|e] w1]; intros [= <-]; cbn; lia.
  - destruct (send t w) as [[| |] w1]; try (intros [= <-]; cbn; lia).
    destruct n as [|n]; [intros [= <-]; cbn; lia|].
    destruct (Base.invalidate w1) as [[] w2]; intros [= <-]; cbn; lia.
Qed.

Lemma run_terminal fuel c : measure c ≤ fuel → step (run fuel c) = None.
Proof.
  revert c. induction fuel as [|fuel IH]; intros c Hc.
  - cbn. destruct (step c) as [c'|] eqn:E; [|done].
    apply step_measure in E. lia.
  - cbn. destruct (step c) as [c'|] eqn:E; [|done].
    apply IH. apply step_measure in E. lia.
Qed.

Lemma step_bounded c c' : bounded c → step c = Some c' → bounded c'.
Proof.
  unfold Session.step, bounded. destruct c as [ph n w tr].
  cbn [at_phase retries_left world trace].
  intros (Hinv & Hatt & Hsent & Hun & Hau).
  assert (∀ c'' : config,
            (invalidations (trace c'') + retries_left c'' = 1
             ∧ attempts (trace c'') ≤ invalidations (trace c'') + 1
             ∧ sends (trace c'') ≤ attempts (trace c''))
            → (at_phase c'' = Unauthenticated →
               attempts (trace c'') = invalidations (trace c''))
            → (∀ t, at_phase c'' = Authenticated t →
               sends (trace c'') < attempts (trace c''))
            → bounded c'') as Hb.
  { intros c'' (? & ? & ?) ? ?. unfold bounded. repeat split; assumption. }
  destruct ph as [|t| | | |]; try discriminate.
  - specialize (Hun eq_refl).
    destruct (Base.get_token w) as [[[t|]|e] w1]; intros [= <-]; apply Hb;
      cbn [at_phase retries_left world trace];
      rewrite ?invalidations_snoc, ?attempts_snoc, ?sends_snoc;
      cbn [is_invalidated is_asked is_sent];
      try discriminate; intros; lia.
  - specialize (Hau t eq_refl).
    destruct (send t w) as [[| |] w1];
      [destruct n as [|n]; [|destruct (Base.invalidate w1) as [[] w2]]| |];
      intros [= <-]; apply Hb;
      cbn [at_phase retries_left world trace];
      rewrite ?invalidations_snoc, ?attempts_snoc, ?sends_snoc;
      cbn [is_invalidated is_asked is_sent];
      try discriminate; intros; lia.
Qed.

Lemma run_bounded fuel c : bounded c → bounded (run fuel c).
Proof.
  revert c. induction fuel as [|fuel IH]; intros c Hc; [done|].
  cbn. destruct (step c) as [c'|] eqn:E; [|done].
  apply IH. by apply step_bounded with c.
Qed.

Lemma start_bounded (w : W) : bounded (start w : config).
Proof. unfold bounded, start. cbn. repeat split; try lia; discriminate. Qed.

(** Whatever the plugin and the service do, a request ends, after at
    most one [invalidate] and at most one retry. *)
Lemma request_bounds w :
  step (request w) = None
  ∧ invalidations (trace (request w)) ≤ 1
  ∧ retries (trace (request w)) ≤ 1
  ∧ sends (trace (request w)) ≤ 2.
Proof.
  split; [by apply run_terminal|].
  destruct (run_bounded 4 (start w) (start_bounded w)) as (H1 & H2 & H3 & _).
  unfold Session.request, retries. lia.
Qed.

(** A plugin that always has a token and always agrees to a retry,
    against a service that never accepts the token: the request asks,
    sends, invalidates, asks and sends again, and gives up. *)
Lemma stubborn_run w :
  (∀ w, ∃ t w', Base.get_token w = (Return (Some t), w')) →
  (∀ t w, (send t w).1 = unauthorized) →
  (∀ w, (Base.invalidate w).1 = true) →
  ∃ t1 t2 w',
    request w =
      {| at_phase := AuthorizationFailed; retries_left := 0; world := w';
         trace := [AskedToken; Sent t1; Invalidated true; AskedToken; Sent t2] |}.
Proof.
  intros Hget Hsend Hinv. unfold Session.request, start.
  destruct (Hget w) as (t1 & w1 & E1).
  cbn [Session.run]. unfold Session.step at 1.
  cbn [at_phase retries_left world trace]. rewrite E1.
  unfold Session.step at 1. cbn [at_phase retries_left world trace].
  pose proof (Hsend t1 w1) as E2.
  destruct (send t1 w1) as [r2 w2]. cbn in E2. subst r2.
  pose proof (Hinv w2) as E3.
  destruct (Base.invalidate w2) as [b w3]. cbn in E3. subst b.
  destruct (Hget w3) as (t2 & w4 & E4).
  unfold Session.step at 1. cbn [at_phase retries_left world trace]. rewrite E4.
  unfold Session.step at 1. cbn [at_phase retries_left world trace].
  pose proof (Hsend t2 w4) as E5.
  destruct (send t2 w4) as [r5 w5]. cbn in E5. subst r5.
  exists t1, t2, w5. reflexivity.
Qed.

(** A plugin whose [invalidate] reports nothing to drop gets no
    second pass: the request is over after one token and at most one
    send. *)
Lemma static_run w :
  (∀ w, (Base.invalidate w).1 = false) →
  ∃ w',
    match Base.get_token w with
    | (Return (Some t), w1) =>
        match (send t w1).1 with
        | unauthorized =>
            request w =
              {| at_phase := AuthorizationFailed; retries_left := 0; world := w';
                 trace := [AskedToken; Sent t; Invalidated false] |}
        | answered x =>
            request w =
              {| at_phase := Completed x; retries_left := 1; world := w';
                 trace := [AskedToken; Sent t] |}
        | failed e =>
            request w =
              {| at_phase := Failed e; retries_left := 1; world := w';
                 trace := [AskedToken; Sent t] |}
        end
    | (Return None, w1) =>
        request w =
          {| at_phase := Unauthenticatable; retries_left := 1; world := w';
             trace := [AskedToken] |}
    | (Raise e, w1) =>
        request w =
          {| at_phase := Failed e; retries_left := 1; world := w';
             trace := [AskedToken] |}
    end.
Proof.
  intros Hinv.
  destruct (Base.get_token w) as [[[t|]|e] w1] eqn:E1.
  - destruct (send t w1) as [[|x|e] w2] eqn:E2; cbn [fst].
    + pose proof (Hinv w2) as E3.
      destruct (Base.invalidate w2) as [b w3] eqn:E4. cbn in E3. subst b.
      exists w3. unfold Session.request, start. cbn [Session.run].
      do 2 advance. reflexivity.
    + exists w2. unfold Session.request, start. cbn [Session.run].
      do 2 advance. reflexivity.
    + exists w2. unfold Session.request, start. cbn [Session.run].
      do 2 advance. reflexivity.
  - exists w1. unfold Session.request, start. cbn [Session.run].
    advance. reflexivity.
  - exists w1. unfold Session.request, start. cbn [Session.run].
    advance. reflexivity.
Qed.

(** C2, amended: whatever the plugin and the service do, a request
    ends, with at most one [invalidate] and at most one retry.
    Against a plugin that always has a token and whose [invalidate]
    reports [True], and a service that always answers unauthorized,
    it invalidates exactly once, retries exactly once, and ends in
    [AuthorizationFailure]. *)
Theorem retry_bound w :
  (step (request w) = None
   ∧ invalidations (trace (request w)) ≤ 1
   ∧ retries (trace (request w)) ≤ 1)
  ∧ ((∀ w, ∃ t w', Base.get_token w = (Return (Some t), w')) →
     (∀ t w, (send t w).1 = unauthorized) →
     (∀ w, (Base.invalidate w).1 = true) →
     invalidations (trace (request w)) = 1
     ∧ retries (trace (request w)) = 1
     ∧ sends (trace (request w)) = 2
     ∧ surfaced (request w) = Some (Raise (Exn AuthorizationFailure "unauthorized"))).
Proof.
  split.
  - destruct (request_bounds w) as (? & ? & ? & _). by repeat split.
  - intros Hget Hsend Hinv.
    destruct (stubborn_run w Hget Hsend Hinv) as (t1 & t2 & w' & ->).
    done.
Qed.

(** C7: [BaseAuthPlugin.invalidate] returns [False] and leaves the
    plugin as it was; a caching plugin with nothing cached returns
    [False] too; and a session whose plugin answers [False] makes no
    retry: after the unauthorized signal it has asked for one token,
    sent one request, and ends in [AuthorizationFailure]. *)
Theorem invalidate_without_state w :
  (∀ self : W, Base.BaseAuthPlugin_invalidate self = (false, self))
  ∧ (∀ p : Caching, cached p = None → caching_invalidate p = (false, p))
  ∧ ((∀ w, (Base.invalidate w).1 = false) →
     retries (trace (request w)) = 0
     ∧ sends (trace (request w)) ≤ 1
     ∧ ∀ t w1,
         Base.get_token w = (Return (Some t), w1) →
         (send t w1).1 = unauthorized →
         trace (request w) = [AskedToken; Sent t; Invalidated false]
         ∧ surfaced (request w) = Some (Raise (Exn AuthorizationFailure "unauthorized"))).
Proof.
  split; [done|]. split.
  - intros p Hp. unfold caching_invalidate. by rewrite Hp.
  - intros Hinv. destruct (static_run w Hinv) as (w' & Hrun).
    destruct (Base.get_token w) as [[[t|]|e] w1].
    + destruct (send t w1) as [[|x|e] w2] eqn:E2; cbn [fst] in Hrun; rewrite Hrun;
        (split; [reflexivity|split; [cbn; lia|]]); intros ? ? [= <- <-];
        rewrite E2; cbn [fst]; done.
    + rewrite Hrun. split; [reflexivity|split; [cbn; lia|]]. by intros.
    + rewrite Hrun. split; [reflexivity|split; [cbn; lia|]]. by intros.
Qed.

End Facts.

(** Against the plugin that inherits [invalidate] from the base class
    the request of C2 is not retried at all, although the plugin
    always has a token and the service always answers unauthorized. *)
Lemma retry_bound_counterexample :
  (∀ w, ∃ t w',
     @Base.get_token _ SessionExample.static_plugin w = (Return (Some t), w'))
  ∧ (∀ t w, (SessionExample.always_unauthorized t w).1 = unauthorized)
  ∧ invalidations
      (trace (request SessionExample.static_plugin
                SessionExample.always_unauthorized ())) = 1
  ∧ retries
      (trace (request SessionExample.static_plugin
                SessionExample.always_unauthorized ())) = 0
  ∧ retries
      (trace (request SessionExample.static_plugin
                SessionExample.always_unauthorized ())) ≠ 1.
Proof.
  split; [intros w; by exists "token", w|].
  split; [done|]. by vm_compute.
Qed.

Lemma retry_bound_witness :
  invalidations
    (trace (request SessionExample.stubborn_plugin
              SessionExample.always_unauthorized ())) = 1
  ∧ retries
      (trace (request SessionExample.stubborn_plugin
                SessionExample.always_unauthorized ())) = 1
  ∧ sends
      (trace (request SessionExample.stubborn_plugin
                SessionExample.always_unauthorized ())) = 2
  ∧ surfaced
      (request SessionExample.stubborn_plugin
         SessionExample.always_unauthorized ())
    = Some (Raise (Exn AuthorizationFailure "unauthorized")).
Proof.
  apply (retry_bound SessionExample.stubborn_plugin
           SessionExample.always_unauthorized ()).
  - intros w. by exists "token", w.
  - reflexivity.
  - reflexivity.
Defined.

Lemma invalidate_without_state_witness :
  retries
    (trace (request SessionExample.static_plugin
              SessionExample.always_unauthorized ())) = 0
  ∧ surfaced
      (request SessionExample.static_plugin
         SessionExample.always_unauthorized ())
    = Some (Raise (Exn AuthorizationFailure "unauthorized")).
Proof.
  destruct (invalidate_without_state SessionExample.static_plugin
              SessionExample.always_unauthorized ()) as (_ & _ & Hrun).
  destruct (Hrun (λ w, eq_refl)) as (Hr & _ & Hfail).
  split; [exact Hr|].
  by destruct (Hfail "token" () eq_refl eq_refl) as [_ Hs].
Defined.

End SessionTheory.

(** ** The authentication reference and the client built from it *)
Module AccessTheory.
Import Access.

(** Reading back what [serialize] wrote gives the reference again,
    every field as it was, the absent ones absent. *)
Lemma deserialize_serialize (ref : AuthReference) :
  deserialize (serialize ref) = Some ref.
Proof.
  destruct ref as [r t e s m u tn ti].
  destruct e, m, u, tn, ti; reflexivity.
Qed.

(** C3: deserializing the serialized form of a reference gives back
    the reference, equal in every field; and a client given nothing
    but that serialized form, no user name, no password, no auth url,
    is built from it, whatever an exchange would have answered. *)
Theorem auth_ref_round_trip (ref : AuthReference)
    (exchange : string → string → string → outcome AuthReference) :
  deserialize (serialize ref) = Some ref
  ∧ Client.new exchange
      {| Client.opt_username := None;
         Client.opt_password := None;
         Client.opt_auth_url := None;
         Client.opt_auth_ref := Some (serialize ref) |}
    = Return
        {| Client.username := username ref;
           Client.password := None;
           Client.auth_url := None;
           Client.management_url := management_url ref;
           Client.auth_ref := Some ref |}.
Proof.
  split; [apply deserialize_serialize|].
  unfold Client.new. cbn [Client.opt_auth_ref].
  by rewrite deserialize_serialize.
Qed.

(** C4: the client of [test_scoped_init], built on the patched
    transport from the user name, the password and the auth url of
    the scenario, holds a scoped reference; the client of
    [test_auth_ref_load], built from the serialized reference alone,
    holds a scoped reference again, has the user name exampleuser, no
    password, and the management endpoint of the fixture. *)
Theorem scoped_init_and_auth_ref_load
    (exchange : string → string → string → outcome AuthReference) :
  ∃ cl ref new_client new_ref,
    Client.new Client.mock_exchange
      {| Client.opt_username := Some "exampleuser";
         Client.opt_password := Some "password";
         Client.opt_auth_url := Some "http://somewhere/";
         Client.opt_auth_ref := None |} = Return cl
    ∧ Client.auth_ref cl = Some ref
    ∧ scoped ref = true
    ∧ Client.new exchange
        {| Client.opt_username := None;
           Client.opt_password := None;
           Client.opt_auth_url := None;
           Client.opt_auth_ref := Some (serialize ref) |} = Return new_client
    ∧ Client.auth_ref new_client = Some new_ref
    ∧ scoped new_ref = true
    ∧ Client.username new_client = Some "exampleuser"
    ∧ Client.password new_client = None
    ∧ Client.management_url new_client = Some "http://admin:35357/v2.0".
Proof.
  eexists _, Client.PROJECT_SCOPED_TOKEN, _, _.
  split; [reflexivity|]. split; [reflexivity|]. split; [reflexivity|].
  split; [apply auth_ref_round_trip|].
  repeat split.
Qed.

End AccessTheory.

(** * Further properties of the code *)

(** ** keystoneclient/auth/base.py *)
Module BaseExtras.
Import Base.

Lemma startswith_app p s : startswith p (p +:+ s) = true.
Proof.
  induction p as [|a p IH]; [done|].
  change (String a p +:+ s) with (String a (p +:+ s)).
  cbn [startswith]. by rewrite Ascii.eqb_refl, IH.
Qed.

Lemma contains_app pre needle post :
  contains needle (pre +:+ needle +:+ post) = true.
Proof.
  induction pre as [|a pre IH].
  - change ("" +:+ needle +:+ post) with (needle +:+ post).
    destruct (needle +:+ post) eqn:E; cbn; rewrite <- E, startswith_app; done.
  - change (String a pre +:+ needle +:+ post)
      with (String a (pre +:+ needle +:+ post)).
    cbn [contains]. rewrite IH. apply orb_true_r.
Qed.

(** X1: whatever the driver manager does, [get_plugin_class] hands
    back its driver when it returns, lets every exception other than
    [RuntimeError] through as it is, and turns a [RuntimeError] into
    a [NoMatchingPlugin] whose message names the plugin asked for. *)
Theorem get_plugin_class_outcomes {C : Type}
    (DM : string → string → bool → outcome (@Manager C)) (name : string) :
  match DM PLUGIN_NAMESPACE name false with
  | Return mgr => get_plugin_class_with DM name = Return (driver mgr)
  | Raise e =>
      if isinstance e RuntimeError then
        ∃ msg,
          get_plugin_class_with DM name = Raise (Exn NoMatchingPlugin msg)
          ∧ contains name msg = true
      else get_plugin_class_with DM name = Raise e
  end.
Proof.
  unfold get_plugin_class_with.
  destruct (DM PLUGIN_NAMESPACE name false) as [mgr|e]; [done|].
  destruct (isinstance e RuntimeError); [|done].
  eexists. split; [reflexivity|]. apply contains_app.
Qed.

End BaseExtras.

(** ** keystoneclient/shell.py *)
Module ShellExtras.
Import Shell.

(** *** env *)

(** X2: searching two lists of variables one after the other is
    searching the first with the result of the second as the
    default. *)
Theorem env_app (environ : gmap string string) (vars1 vars2 : list string)
    (kwargs : gmap string string) :
  env environ (vars1 ++ vars2) kwargs =
    env environ vars1 (<["default" := env environ vars2 kwargs]> kwargs).
Proof.
  induction vars1 as [|v vars1 IH].
  - cbn. by rewrite lookup_insert_eq.
  - cbn. destruct (environ !! v) as [s|]; [|done]. by destruct (truthy s).
Qed.

(** X3: [env] reads the listed variables and nothing else: two
    environments that agree on them give the same result. *)
Theorem env_agree (environ environ' : gmap string string)
    (vars : list string) (kwargs : gmap string string) :
  (∀ v, v ∈ vars → environ !! v = environ' !! v) →
  env environ vars kwargs = env environ' vars kwargs.
Proof.
  induction vars as [|v vars IH]; intros Hagree; [done|].
  cbn. rewrite <- (Hagree v) by apply list_elem_of_here.
  rewrite IH; [done|]. intros u Hu. apply Hagree. by apply list_elem_of_further.
Qed.

Lemma env_agree_witness :
  env (<["HOME" := "/root"]> {[ "OS_USERNAME" := "admin" ]}) ["OS_USERNAME"] ∅
  = env {[ "OS_USERNAME" := "admin" ]} ["OS_USERNAME"] ∅.
Proof.
  apply (env_agree (<["HOME" := "/root"]> {[ "OS_USERNAME" := "admin" ]})
           {[ "OS_USERNAME" := "admin" ]} ["OS_USERNAME"] ∅).
  intros v Hv. apply list_elem_of_singleton in Hv as ->. reflexivity.
Defined.

(** *** The commands of the shell *)

Lemma elem_of_find_actions (s : gset string) (attrs : list string) (c : string) :
  c ∈ _find_actions s attrs ↔
  c ∈ s ∨ ∃ a, a ∈ attrs ∧ startswith "do_" a = true ∧ c = command_name a.
Proof.
  unfold _find_actions. revert s.
  induction attrs as [|a attrs IH]; intros s.
  - cbn. split; [by left|]. intros [?|(a & Ha & _)]; [done|].
    by apply not_elem_of_nil in Ha.
  - destruct (decide (startswith "do_" a = true)) as [Hdo|Hdo].
    + rewrite filter_cons_True by done. cbn [foldl]. rewrite IH.
      rewrite elem_of_union, elem_of_singleton. split.
      * intros [[->|?]|(b & Hb & ? & ?)].
        -- right. exists a. split; [apply list_elem_of_here|done].
        -- by left.
        -- right. exists b. split; [by apply list_elem_of_further|done].
      * intros [?|(b & Hb & Hs & ->)]; [left; by right|].
        apply elem_of_cons in Hb as [->|Hb]; [left; by left|].
        right. by exists b.
    + rewrite filter_cons_False by done. rewrite IH. split.
      * intros [?|(b & Hb & ? & ?)]; [by left|].
        right. exists b. split; [by apply list_elem_of_further|done].
      * intros [?|(b & Hb & Hs & ->)]; [by left|].
        apply elem_of_cons in Hb as [->|Hb]; [done|].
        right. by exists b.
Qed.

(** X5: the commands the shell knows are exactly the names made from
    the [do_] attributes of the three places it scans: [shell_v2_0],
    [shell_generic] and the shell itself. *)
Theorem registered_commands (dir_shell_v2_0 dir_shell_generic dir_self : list string)
    (c : string) :
  c ∈ registered dir_shell_v2_0 dir_shell_generic dir_self ↔
  ∃ a, a ∈ dir_shell_v2_0 ++ dir_shell_generic ++ dir_self
       ∧ startswith "do_" a = true ∧ c = command_name a.
Proof.
  unfold registered. rewrite !elem_of_find_actions. split.
  - intros [[[?|(a & Ha & ?)]|(a & Ha & ?)]|(a & Ha & ?)]; [set_solver|..];
      exists a; (split; [|done]); rewrite !elem_of_app; auto.
  - intros (a & Ha & ?). rewrite !elem_of_app in Ha.
    destruct Ha as [?|[?|?]]; [left; left; right|left; right|right]; by exists a.
Qed.

Lemma replace_char_occurs (a b : Ascii.ascii) (s : string) :
  a ≠ b → occurs a (replace_char a b s) = false.
Proof.
  intros Hab. induction s as [|c s IH]; [done|].
  cbn. rewrite IH, orb_false_r.
  destruct (Ascii.eqb c a) eqn:E.
  - apply Ascii.eqb_neq. congruence.
  - done.
Qed.

(** X6: no command of the shell has an underscore in its name. *)
Theorem registered_no_underscore
    (dir_shell_v2_0 dir_shell_generic dir_self : list string) (c : string) :
  c ∈ registered dir_shell_v2_0 dir_shell_generic dir_self →
  occurs "_"%char c = false.
Proof.
  intros (a & _ & _ & ->)%registered_commands.
  by apply replace_char_occurs.
Qed.

Lemma registered_no_underscore_witness :
  occurs "_"%char "user-list" = false.
Proof.
  apply (registered_no_underscore ["do_user_list"] [] [] "user-list").
  apply registered_commands. exists "do_user_list".
  split; [apply list_elem_of_here|]. split; reflexivity.
Defined.

Lemma replace_char_inj (a b : Ascii.ascii) (s t : string) :
  occurs b s = false → occurs b t = false →
  replace_char a b s = replace_char a b t → s = t.
Proof.
  revert t. induction s as [|c s IH]; intros [|d t]; cbn; try done.
  intros [Hc Hs]%orb_false_elim [Hd Ht]%orb_false_elim [= Hcd Hst].
  f_equal; [|by apply IH].
  apply Ascii.eqb_neq in Hc, Hd.
  destruct (Ascii.eqb c a) eqn:Eca, (Ascii.eqb d a) eqn:Eda.
  - apply Ascii.eqb_eq in Eca, Eda. congruence.
  - congruence.
  - congruence.
  - done.
Qed.

Lemma startswith_do (a : string) :
  startswith "do_" a = true → a = "do_" +:+ string_drop 3 a.
Proof.
  destruct a as [|c1 [|c2 [|c3 a]]]; cbn [startswith string_drop]; try done.
  - by rewrite andb_false_r.
  - by rewrite !andb_false_r.
  - intros H. apply andb_prop in H as [H1 H]. apply andb_prop in H as [H2 H].
    apply andb_prop in H as [H3 _].
    apply Ascii.eqb_eq in H1, H2, H3. by subst.
Qed.

Lemma occurs_drop (c : Ascii.ascii) (n : nat) (s : string) :
  occurs c s = false → occurs c (string_drop n s) = false.
Proof.
  revert s. induction n as [|n IH]; intros [|a s]; cbn; try done.
  intros [_ ?]%orb_false_elim. by apply IH.
Qed.

(** X7: the command name is injective on attribute names that hold
    no hyphen, as the names of functions never do: two such names
    that start with [do_] and give the same command name are the same
    name. *)
Theorem command_name_inj (a b : string) :
  startswith "do_" a = true → startswith "do_" b = true →
  occurs "-"%char a = false → occurs "-"%char b = false →
  command_name a = command_name b → a = b.
Proof.
  intros Ha Hb Hna Hnb Heq.
  rewrite (startswith_do a Ha), (startswith_do b Hb). f_equal.
  apply (replace_char_inj "_"%char "-"%char); [by apply occurs_drop..|done].
Qed.

Lemma command_name_inj_witness : "do_user_list" = "do_user_list".
Proof.
  apply (command_name_inj "do_user_list" "do_user_list");
    reflexivity.
Defined.

(** *** The help formatter *)



(** *** The paths through main *)

Section Paths.
Context {Client : Type}.
Variable parse_known_args : list string → Namespace.
Variable parse_args : string → list string → outcome Namespace.
Variable generic_CLIENT_CLASS : Kwargs → outcome Client.
Variable v2_0_CLIENT_CLASS : Kwargs → outcome Client.
Variable dir_shell_v2_0 dir_shell_generic dir_self : list string.
Variable run : Action → Client → Namespace → outcome unit.

#[local] Abbreviation shell_main :=
  (OpenStackIdentityShell_main parse_known_args parse_args
     generic_CLIENT_CLASS v2_0_CLIENT_CLASS
     dir_shell_v2_0 dir_shell_generic dir_self run).
#[local] Abbreviation process_main :=
  (main parse_known_args parse_args
     generic_CLIENT_CLASS v2_0_CLIENT_CLASS
     dir_shell_v2_0 dir_shell_generic dir_self run).
#[local] Abbreviation commands :=
  (registered dir_shell_v2_0 dir_shell_generic dir_self).
#[local] Abbreviation constructed_for :=
  (constructed generic_CLIENT_CLASS v2_0_CLIENT_CLASS).
#[local] Abbreviation version_of argv :=
  (identity_api_version (parse_known_args argv)).

Lemma get_subcommand_parser_registered version (st : @State Client) :
  OpenStackIdentityShell_get_subcommand_parser
    dir_shell_v2_0 dir_shell_generic dir_self version st
  = (Return (), set_subcommands commands st).
Proof.
  unfold OpenStackIdentityShell_get_subcommand_parser.
  assert (match ({[ "2.0" := dir_shell_v2_0 ]} : gmap string (list string)) !! version with
          | Some m => m
          | None => dir_shell_v2_0
          end = dir_shell_v2_0) as ->.
  { case_match eqn:E; [|done]. by apply lookup_singleton_Some in E as [_ <-]. }
  reflexivity.
Qed.

(** X4: the API version changes nothing: for every version string
    the shell registers the same commands, those of [shell_v2_0],
    [shell_generic] and its own, and [get_api_class] gives the client
    class of [shell_v2_0]. *)
Theorem api_version_without_effect (version : string) (st : @State Client) :
  OpenStackIdentityShell_get_subcommand_parser
    dir_shell_v2_0 dir_shell_generic dir_self version st
  = (Return (), set_subcommands commands st)
  ∧ OpenStackIdentityShell_get_api_class v2_0_CLIENT_CLASS version
    = v2_0_CLIENT_CLASS.
Proof.
  split; [apply get_subcommand_parser_registered|].
  unfold OpenStackIdentityShell_get_api_class.
  case_match eqn:E; [|done]. by apply lookup_singleton_Some in E as [_ <-].
Qed.

Lemma do_help_eq args (st : @State Client) :
  bind (OpenStackIdentityShell_do_help args) (λ _, ret (Some 0%Z)) st
  = help_outcome args st.
Proof.
  unfold OpenStackIdentityShell_do_help, help_outcome.
  unfold mbind, M_bind, bind, get, modify, raise, ret.
  destruct (command args) as [cmd|]; [|done].
  destruct (truthy cmd); [|done].
  by destruct (bool_decide (cmd ∈ subcommands st)).
Qed.

(** [main], path by path. *)
Lemma main_eq argv (st : @State Client) :
  shell_main argv st =
    if help (parse_known_args argv) then
      help_outcome (parse_known_args argv) (set_subcommands commands st)
    else
      match parse_args (version_of argv) argv with
      | Raise e => (Raise e, set_subcommands commands st)
      | Return args =>
          match func args with
          | do_help_method => help_outcome args (entered args commands st)
          | action a =>
              match missing_credential args with
              | Some msg =>
                  (Raise (Exn CommandError msg), entered args commands st)
              | None =>
                  let ev := client_event (parse_known_args argv) args in
                  match constructed_for args with
                  | Raise e => (Raise e, emit ev (entered args commands st))
                  | Return c =>
                      (translated (run a c args),
                       emit (Called (func args))
                         (set_cs c (emit ev (entered args commands st))))
                  end
              end
          end
      end.
Proof.
  unfold OpenStackIdentityShell_main.
  unfold mbind at 1. unfold M_bind, bind at 1.
  rewrite get_subcommand_parser_registered.
  destruct (help (parse_known_args argv)); [apply do_help_eq|].
  unfold mbind at 1. unfold bind at 1. unfold lift at 1.
  destruct (parse_args (version_of argv) argv) as [args|e]; [|done].
  unfold mbind at 1. unfold bind at 1.
  assert ((if debug args then modify (set_debuglevel 1) else mret ())
            (set_subcommands commands st)
          = (Return (), entered args commands st)) as ->.
  { unfold entered. by destruct (debug args). }
  destruct (func args) as [|a] eqn:Hf.
  - rewrite bool_decide_eq_true_2 by done. apply do_help_eq.
  - rewrite bool_decide_eq_false_2 by done.
    unfold mbind at 1. unfold bind at 1.
    rewrite ShellTheory.check_credentials_eq.
    destruct (missing_credential args) as [msg|]; [done|].
    unfold mbind at 1. unfold bind at 1. rewrite ShellTheory.make_client_eq.
    cbv zeta. destruct (constructed_for args) as [c|e]; [|done].
    unfold mbind at 1. unfold bind at 1.
    rewrite (ShellTheory.dispatch_eq run args a c) by done.
    rewrite Hf. unfold translated. destruct (run a c args) as [[]|e]; [done|].
    destruct (isinstance e Unauthorized); [done|].
    by destruct (isinstance e AuthorizationFailure).
Qed.

(** X8: with the top-level help flag [main] prints the help of the
    program and returns 0.  It does not parse the command, build a
    client or call a callback, and the debug level stays as it was,
    the debug flag given or not. *)
Theorem help_flag_prints_usage argv (st : @State Client) :
  help (parse_known_args argv) = true →
  command (parse_known_args argv) = None →
  shell_main argv st =
    (Return (Some 0%Z), emit (PrintHelp None) (set_subcommands commands st)).
Proof.
  intros Hh Hc. rewrite main_eq, Hh. unfold help_outcome. by rewrite Hc.
Qed.

(** X9: the help command needs no credentials.  For a command the
    shell knows it prints that command's help and returns 0; for one
    it does not know it raises the command error that names it and
    prints nothing; with no command it prints the help of the
    program.  No client is built and no callback called. *)
Theorem help_command argv args (st : @State Client) :
  help (parse_known_args argv) = false →
  parse_args (version_of argv) argv = Return args →
  func args = do_help_method →
  let st1 := entered args commands st in
  (∀ cmd, command args = Some cmd → cmd ≠ "" → cmd ∈ commands →
     shell_main argv st = (Return (Some 0%Z), emit (PrintHelp (Some cmd)) st1))
  ∧ (∀ cmd, command args = Some cmd → cmd ≠ "" → cmd ∉ commands →
     shell_main argv st =
       (Raise (Exn CommandError ("'" +:+ cmd +:+ "' is not a valid subcommand")),
        st1))
  ∧ (command args = None ∨ command args = Some "" →
     shell_main argv st = (Return (Some 0%Z), emit (PrintHelp None) st1)).
Proof.
  intros Hh Hp Hf st1. rewrite main_eq, Hh, Hp, Hf. unfold help_outcome.
  assert (subcommands st1 = commands) as Hsub.
  { unfold st1, entered. by destruct (debug args). }
  fold st1. rewrite Hsub. split; [|split].
  - intros cmd -> Hne%truthy_true Hin. rewrite Hne.
    by rewrite bool_decide_eq_true_2.
  - intros cmd -> Hne%truthy_true Hin. rewrite Hne.
    by rewrite bool_decide_eq_false_2.
  - by intros [-> | ->].
Qed.

(** X10: asking for the help of a command the shell does not know
    ends the process with status 1 and the one message that names
    the command on the error stream; with the debug flag the command
    error goes on uncaught and nothing is printed there. *)
Theorem help_unknown_command_exits argv args cmd (d : Z) :
  help (parse_known_args argv) = false →
  parse_args (version_of argv) argv = Return args →
  func args = do_help_method →
  command args = Some cmd → cmd ≠ "" → cmd ∉ commands →
  let e := Exn CommandError ("'" +:+ cmd +:+ "' is not a valid subcommand") in
  (debug args = true →
   (process_main argv d).1 = Uncaught e
   ∧ stderr (log (process_main argv d).2) = [])
  ∧ (debug args = false → d ≠ 1%Z →
     (process_main argv d).1 = Exited 1
     ∧ stderr (log (process_main argv d).2) = [exn_message e]).
Proof.
  intros Hh Hp Hf Hc Hne Hnot e.
  destruct (help_command argv args (fresh d) Hh Hp Hf) as (_ & Hunknown & _).
  specialize (Hunknown cmd Hc Hne Hnot). unfold main. rewrite Hunknown.
  assert (is_Exception e = true) as He by reflexivity. fold e. rewrite He.
  rewrite ShellTheory.entered_debuglevel. split.
  - intros ->. rewrite bool_decide_eq_true_2 by done. cbn [fst snd].
    by rewrite ShellTheory.entered_log.
  - intros -> Hd. cbn [fresh debuglevel].
    rewrite bool_decide_eq_false_2 by done. cbn [fst snd emit log].
    by rewrite ShellTheory.stderr_emit, ShellTheory.entered_log.
Qed.

(** X11: when argparse refuses the command line, nothing has been
    done but registering the commands: the debug flag is not applied,
    no client is built.  The [SystemExit] of argparse is not an
    [Exception], so [main] of the module lets it through whatever the
    debug level is; any other exception is printed, and the process
    exits with status 1, unless the debug level was 1 already. *)
Theorem parse_failure argv e (d : Z) :
  help (parse_known_args argv) = false →
  parse_args (version_of argv) argv = Raise e →
  (∀ st : @State Client,
     shell_main argv st = (Raise e, set_subcommands commands st))
  ∧ (exn_kind e = SystemExit →
     process_main argv d = (Uncaught e, set_subcommands commands (fresh d)))
  ∧ (exn_kind e ≠ SystemExit → d ≠ 1%Z →
     process_main argv d =
       (Exited 1,
        emit (PrintErr (exn_message e)) (set_subcommands commands (fresh d)))).
Proof.
  intros Hh Hp.
  assert (∀ st : @State Client,
            shell_main argv st = (Raise e, set_subcommands commands st)) as Hmain
    by (intros st; by rewrite main_eq, Hh, Hp).
  split; [done|]. unfold main. rewrite Hmain. unfold is_Exception, isinstance.
  split.
  - intros Hk. by rewrite bool_decide_eq_true_2.
  - intros Hk Hd. rewrite bool_decide_eq_false_2 by done. cbn [negb].
    by rewrite bool_decide_eq_false_2.
Qed.

Lemma help_outcome_debuglevel args (st : @State Client) :
  debuglevel (help_outcome args st).2 = debuglevel st.
Proof. unfold help_outcome. by repeat case_match. Qed.

(** X12: the only thing [main] ever does to [httplib2.debuglevel] is
    to set it to 1, and that exactly when the command line has no
    top-level help flag, parses, and carries the debug flag; on every
    other path the level is what it was. *)
Theorem debuglevel_after_main argv (st : @State Client) :
  debuglevel (shell_main argv st).2 =
    if help (parse_known_args argv) then debuglevel st
    else
      match parse_args (version_of argv) argv with
      | Return args => if debug args then 1%Z else debuglevel st
      | Raise _ => debuglevel st
      end.
Proof.
  rewrite main_eq. destruct (help (parse_known_args argv)).
  { by rewrite help_outcome_debuglevel. }
  destruct (parse_args (version_of argv) argv) as [args|e]; [|done].
  rewrite <- (ShellTheory.entered_debuglevel args commands st).
  destruct (func args) as [|a]; [by rewrite help_outcome_debuglevel|].
  destruct (missing_credential args); [done|]. cbv zeta.
  by destruct (constructed_for args).
Qed.

Lemma help_outcome_log args (st : @State Client) :
  log (help_outcome args st).2 = log st
  ∨ ∃ x, log (help_outcome args st).2 = log st ++ [PrintHelp x].
Proof. unfold help_outcome. repeat case_match; cbn; eauto. Qed.

Lemma client_event_new options args : is_new_client (client_event options args) = true.
Proof. unfold client_event. by case_match. Qed.

(** X13: what one run of [main] adds to the events is nothing, or one
    help text, or the construction of one client, or that
    construction followed by the call of the callback.  The callback
    is never called twice and never called without a client in
    [self.cs]; no second client is built. *)
Theorem main_events argv (st : @State Client) :
  ∃ evs,
    log (shell_main argv st).2 = log st ++ evs
    ∧ (evs = []
       ∨ (∃ x, evs = [PrintHelp x])
       ∨ (∃ ev, is_new_client ev = true
                ∧ (evs = [ev]
                   ∨ ∃ f c, evs = [ev; Called f]
                            ∧ cs (shell_main argv st).2 = Some c))).
Proof.
  assert (∀ args (st0 : @State Client), log st0 = log st →
            ∃ evs, log (help_outcome args st0).2 = log st ++ evs
                   ∧ (evs = [] ∨ ∃ x, evs = [PrintHelp x])) as Hhelp.
  { intros args st0 <-. destruct (help_outcome_log args st0) as [->|[x ->]].
    - exists []. split; [by rewrite app_nil_r|by left].
    - exists [PrintHelp x]. split; [done|]. right. by exists x. }
  rewrite main_eq. destruct (help (parse_known_args argv)).
  { destruct (Hhelp (parse_known_args argv) (set_subcommands commands st) eq_refl)
      as (evs & -> & [->|[x ->]]); eexists; (split; [done|]); [by left|].
    right; left. by exists x. }
  destruct (parse_args (version_of argv) argv) as [args|e].
  2:{ exists []. split; [by rewrite app_nil_r|by left]. }
  pose proof (ShellTheory.entered_log args commands st) as Hlog.
  destruct (func args) as [|a].
  { destruct (Hhelp args (entered args commands st) Hlog)
      as (evs & -> & [->|[x ->]]); eexists; (split; [done|]); [by left|].
    right; left. by exists x. }
  destruct (missing_credential args).
  { exists []. split; [by rewrite app_nil_r|by left]. }
  cbv zeta. pose proof (client_event_new (parse_known_args argv) args) as Hev.
  destruct (constructed_for args) as [c|e].
  - exists [client_event (parse_known_args argv) args; Called (action a)].
    cbn [snd log emit set_cs cs]. rewrite Hlog. split; [by rewrite <- app_assoc|].
    right; right. eexists. split; [done|]. right. by exists (action a), c.
  - exists [client_event (parse_known_args argv) args].
    cbn [snd log emit]. rewrite Hlog. split; [done|].
    right; right. eexists. split; [done|]. by left.
Qed.



(** X15: an exception of the callback that is neither
    [Unauthorized] nor [AuthorizationFailure], a command error of the
    callback's own included, leaves [main] as it is, message and
    all; only those two classes are rewritten. *)
Theorem callback_exception_passes argv args a c e (st : @State Client) :
  runs_command parse_known_args parse_args argv args →
  func args = action a →
  missing_credential args = None →
  constructed_for args = Return c →
  run a c args = Raise e →
  exn_kind e ≠ Unauthorized →
  exn_kind e ≠ AuthorizationFailure →
  (shell_main argv st).1 = Raise e
  ∧ cs (shell_main argv st).2 = Some c.
Proof.
  intros (Hh & Hp & _) Hf Hm Hc Hr H1 H2.
  rewrite main_eq, Hh, Hp, Hf, Hm. cbv zeta. rewrite Hc, Hr.
  unfold translated, isinstance. by rewrite !bool_decide_eq_false_2.
Qed.

Lemma env_one (environ : gmap string string) (v : string) :
  truthy (env environ [v] ∅) = bool_decide (set_nonempty environ v)
  ∧ (set_nonempty environ v → env environ [v] ∅ = environ !!! v).
Proof.
  destruct (decide (set_nonempty environ v)) as [Hv|Hv].
  - rewrite bool_decide_eq_true_2 by done.
    rewrite (ShellTheory.env_set environ v [] ∅ Hv). split; [|done].
    destruct Hv as [[s Hs] Hne]. rewrite lookup_total_alt, Hs. cbn.
    apply truthy_true. congruence.
  - rewrite bool_decide_eq_false_2 by done.
    rewrite (ShellTheory.env_unset environ v [] ∅ Hv). by split.
Qed.

(** X16: a command line without global options gets them from the
    environment.  A command that requires authentication is then
    asked for a user name when [OS_USERNAME] is unset or empty,
    unless [SERVICE_TOKEN] and [SERVICE_ENDPOINT] are both set and
    non-empty; when they are, the client is built with their values
    and no credential is asked for. *)
Theorem credentials_from_environment (environ : gmap string string)
    argv f (st : @State Client) :
  let args := get_base_parser_defaults environ f in
  runs_command parse_known_args parse_args argv args →
  isunauthenticated f = false →
  (¬ (set_nonempty environ "SERVICE_TOKEN"
      ∧ set_nonempty environ "SERVICE_ENDPOINT") →
   ¬ set_nonempty environ "OS_USERNAME" →
   refused (shell_main argv st) st
     "You must provide a username via either --username or env[OS_USERNAME]")
  ∧ (set_nonempty environ "SERVICE_TOKEN" →
     set_nonempty environ "SERVICE_ENDPOINT" →
     ∃ rest,
       log (shell_main argv st).2 =
         log st
         ++ NewClient (version_of argv)
              (client_kwargs args
                 (Some (environ !!! "SERVICE_TOKEN"))
                 (Some (environ !!! "SERVICE_ENDPOINT")))
            :: rest).
Proof.
  intros args Hruns Hauth.
  destruct (env_one environ "SERVICE_TOKEN") as [Htok Htokv].
  destruct (env_one environ "SERVICE_ENDPOINT") as [Hep Hepv].
  destruct (env_one environ "OS_USERNAME") as [Huser _].
  split.
  - intros Hno Hu. apply (ShellTheory.main_refuses _ _ _ _ _ _ _ _ argv args); [done|].
    unfold missing_credential. cbn [args get_base_parser_defaults func token endpoint username].
    rewrite Hauth, Htok, Hep, Huser.
    rewrite (bool_decide_eq_false_2 (set_nonempty environ "OS_USERNAME")) by done.
    destruct (decide (set_nonempty environ "SERVICE_TOKEN")) as [Ht|Ht];
      [|by rewrite (bool_decide_eq_false_2 _ Ht)].
    destruct (decide (set_nonempty environ "SERVICE_ENDPOINT")) as [He|He];
      [|by rewrite (bool_decide_eq_false_2 _ He), andb_false_r].
    by destruct Hno.
  - intros Ht He. destruct Hruns as (Hh & Hp & Hne).
    destruct f as [|a]; [done|].
    rewrite main_eq, Hh, Hp.
    assert (missing_credential args = None) as ->.
    { unfold missing_credential.
      cbn [args get_base_parser_defaults func token endpoint].
      rewrite Hauth, Htok, Hep. by rewrite !bool_decide_eq_true_2. }
    assert (client_event (parse_known_args argv) args =
              NewClient (version_of argv)
                (client_kwargs args
                   (Some (environ !!! "SERVICE_TOKEN"))
                   (Some (environ !!! "SERVICE_ENDPOINT")))) as ->.
    { unfold client_event, token_and_endpoint.
      cbn [args get_base_parser_defaults func token endpoint].
      rewrite Hauth, Htok, Hep, !bool_decide_eq_true_2 by done.
      cbn [fst snd]. by rewrite Htokv, Hepv. }
    cbn [func args get_base_parser_defaults]. cbv zeta.
    destruct (constructed_for _) as [c|e]; cbn [snd log emit set_cs].
    + rewrite ShellTheory.entered_log. eexists. by rewrite <- app_assoc.
    + rewrite ShellTheory.entered_log. by eexists.
Qed.

End Paths.

(** The statements on the command lines of [Example]. *)
#[local] Abbreviation example_main ns :=
  (OpenStackIdentityShell_main
     (Example.parse_known_args ns) (Example.parse_args ns)
     Example.CLIENT_CLASS Example.CLIENT_CLASS
     ["do_user_list"] ["do_discover"] ["do_help"; "main"] Example.run_ok).
#[local] Abbreviation example_commands :=
  (registered ["do_user_list"] ["do_discover"] ["do_help"; "main"]).

Lemma help_flag_prints_usage_witness :
  example_main Example.help_flag ["--help"] (fresh 0) =
    (Return (Some 0%Z),
     emit (PrintHelp None) (set_subcommands example_commands (fresh 0))).
Proof.
  apply (help_flag_prints_usage
           (Example.parse_known_args Example.help_flag)
           (Example.parse_args Example.help_flag)
           Example.CLIENT_CLASS Example.CLIENT_CLASS
           ["do_user_list"] ["do_discover"] ["do_help"; "main"] Example.run_ok
           ["--help"] (fresh 0)); reflexivity.
Defined.

Lemma help_command_witness :
  "user-list" ∈ example_commands
  ∧ example_main (Example.help_for (Some "user-list")) ["help"; "user-list"] (fresh 0) =
      (Return (Some 0%Z),
       emit (PrintHelp (Some "user-list"))
         (entered (Example.help_for (Some "user-list")) example_commands (fresh 0))).
Proof.
  assert ("user-list" ∈ example_commands) as Hin.
  { apply registered_commands. exists "do_user_list".
    split; [apply list_elem_of_here|]. split; reflexivity. }
  split; [exact Hin|].
  destruct (help_command
              (Example.parse_known_args (Example.help_for (Some "user-list")))
              (Example.parse_args (Example.help_for (Some "user-list")))
              Example.CLIENT_CLASS Example.CLIENT_CLASS
              ["do_user_list"] ["do_discover"] ["do_help"; "main"] Example.run_ok
              ["help"; "user-list"] (Example.help_for (Some "user-list")) (fresh 0)
              eq_refl eq_refl eq_refl) as (Hknown & _ & _).
  apply Hknown; [reflexivity|discriminate|exact Hin].
Defined.

Lemma help_unknown_command_exits_witness :
  ("nosuch" ∉ example_commands)
  ∧ (main
       (Example.parse_known_args (Example.help_for (Some "nosuch")))
       (Example.parse_args (Example.help_for (Some "nosuch")))
       Example.CLIENT_CLASS Example.CLIENT_CLASS
       ["do_user_list"] ["do_discover"] ["do_help"; "main"] Example.run_ok
       ["help"; "nosuch"] 0).1 = Exited 1.
Proof.
  assert ("nosuch" ∉ example_commands) as Hout.
  { intros (a & Ha & _ & Hc)%registered_commands.
    cbn [app] in Ha. repeat (apply elem_of_cons in Ha as [->|Ha]; [discriminate Hc|]).
    by apply not_elem_of_nil in Ha. }
  split; [exact Hout|].
  destruct (help_unknown_command_exits
              (Example.parse_known_args (Example.help_for (Some "nosuch")))
              (Example.parse_args (Example.help_for (Some "nosuch")))
              Example.CLIENT_CLASS Example.CLIENT_CLASS
              ["do_user_list"] ["do_discover"] ["do_help"; "main"] Example.run_ok
              ["help"; "nosuch"] (Example.help_for (Some "nosuch")) "nosuch" 0
              eq_refl eq_refl eq_refl eq_refl ltac:(discriminate) Hout)
    as [_ Hquiet].
  by apply Hquiet.
Defined.

Lemma parse_failure_witness :
  main
    (Example.parse_known_args Example.no_password) Example.parse_args_exits
    Example.CLIENT_CLASS Example.CLIENT_CLASS
    ["do_user_list"] ["do_discover"] ["do_help"; "main"] Example.run_ok
    ["--bogus"] 0
  = (Uncaught (Exn SystemExit "2"), set_subcommands example_commands (fresh 0)).
Proof.
  destruct (parse_failure
              (Example.parse_known_args Example.no_password)
              Example.parse_args_exits
              Example.CLIENT_CLASS Example.CLIENT_CLASS
              ["do_user_list"] ["do_discover"] ["do_help"; "main"] Example.run_ok
              ["--bogus"] (Exn SystemExit "2") 0 eq_refl eq_refl)
    as (_ & Hexit & _).
  by apply Hexit.
Defined.

Lemma callback_exception_passes_witness :
  (OpenStackIdentityShell_main
     (Example.parse_known_args Example.with_password)
     (Example.parse_args Example.with_password)
     Example.CLIENT_CLASS Example.CLIENT_CLASS
     ["do_user_list"] ["do_discover"] ["do_help"; "main"] Example.run_fails
     ["user-list"] (fresh 0)).1
  = Raise (Exn CommandError "Unable to find user").
Proof.
  assert (runs_command
            (Example.parse_known_args Example.with_password)
            (Example.parse_args Example.with_password)
            ["user-list"] Example.with_password) as Hruns
    by (split; [reflexivity|split; [reflexivity|discriminate]]).
  apply (callback_exception_passes
           (Example.parse_known_args Example.with_password)
           (Example.parse_args Example.with_password)
           Example.CLIENT_CLASS Example.CLIENT_CLASS
           ["do_user_list"] ["do_discover"] ["do_help"; "main"] Example.run_fails
           ["user-list"] Example.with_password
           {| attr := "do_user_list"; unauthenticated := false |} ()
           (Exn CommandError "Unable to find user") (fresh 0)
           Hruns eq_refl eq_refl eq_refl eq_refl
           ltac:(discriminate) ltac:(discriminate)).
Defined.

Lemma credentials_from_environment_witness :
  refused
    (example_main (get_base_parser_defaults ∅ Example.user_list) ["user-list"] (fresh 0))
    (fresh 0)
    "You must provide a username via either --username or env[OS_USERNAME]".
Proof.
  assert (∀ v, ¬ set_nonempty (∅ : gmap string string) v) as Hunset.
  { intros v [[x Hx] _]. by rewrite lookup_empty in Hx. }
  destruct (credentials_from_environment
              (Example.parse_known_args (get_base_parser_defaults ∅ Example.user_list))
              (Example.parse_args (get_base_parser_defaults ∅ Example.user_list))
              Example.CLIENT_CLASS Example.CLIENT_CLASS
              ["do_user_list"] ["do_discover"] ["do_help"; "main"] Example.run_ok
              ∅ ["user-list"] Example.user_list (fresh 0)) as [Hrefused _].
  - split; [reflexivity|split; [reflexivity|discriminate]].
  - reflexivity.
  - apply Hrefused; [intros [H _]; by apply (Hunset _ H)|apply Hunset].
Defined.

End ShellExtras.
